(** * Widget Studio and widget registry of sc-command-center

    A shallow embedding of [src/widgetRegistry.ts] and of the dynamic widget
    runtime in [src/pages/WidgetStudio.tsx]: the registry object, the error
    boundary class, the compile-and-evaluate effect, the generation handler
    and the publish handler.

    - The registry is a plain object used as a map: its own properties
      are a finite map from widget id to definition, and reads and
      assignments go through the prototype chain as in JavaScript, so an
      assignment under [__proto__] adds no property and a read of a name
      such as [toString] is not [undefined].
    - The [useState] cells of the studio are a record.  A closure created
      by a render (the debounced [evaluateCode], a [handleGenerate] held by
      a timer, the boundary's [onError]) reads the record as it was at that
      render, while state setters act on the current record.
    - A handler is a statement over the state that returns or throws; the
      state updates of one handler call are one batch followed by one render
      (the application is mounted with [createRoot]).
    - Timers and outstanding fetches are explicit, with a clock, so that a
      run of the component is a list of events.
    - Babel, the [Function] constructor and the generation service are
      parameters: what they return or throw is an input.
    - Strings are sequences of code units below 256.

    Further parts cover the grouping functions of the registry, the widget
    list of the tray in [src/components/WidgetTray.tsx], the data source
    test and the load effect of the studio, and the dashboard store in
    [client/src/store/dashboardStore.tsx], whose [uuidv4] is the sequence
    of values it returns. *)

From Stdlib Require Import String Ascii List ZArith Lia Bool.
From stdpp Require Import base option list gmap strings fin_maps sorting.
Import ListNotations.
Local Open Scope string_scope.
Local Open Scope list_scope.
Set Warnings "-register-all".

(** ** JavaScript values the code relies on *)

Module Js.

(** Truthiness of a string: only the empty string is falsy. *)
Definition truthy (s : string) : bool := negb (String.eqb s "").

(** Truthiness of [string | null | undefined]. *)
Definition truthy_opt (o : option string) : bool :=
  match o with
  | Some s => truthy s
  | None => false
  end.

(** [a || b] on strings. *)
Definition or_else (a b : string) : string := if truthy a then a else b.

(** [a || b] where [a] may be null or undefined and [b] is a string. *)
Definition opt_or_else (a : option string) (b : string) : string :=
  match a with
  | Some s => or_else s b
  | None => b
  end.

(** [a || b] where both sides may be null: the left operand when truthy,
    else the right operand whatever it is. *)
Definition opt_or_opt (a b : option string) : option string :=
  if truthy_opt a then a else b.

(** Code units below 256 that [String.prototype.trim] strips: tab, line
    feed, vertical tab, form feed, carriage return, space, no-break space. *)
Definition is_whitespace (c : ascii) : bool :=
  let n := nat_of_ascii c in
  (Nat.eqb n 9 || Nat.eqb n 10 || Nat.eqb n 11 || Nat.eqb n 12
   || Nat.eqb n 13 || Nat.eqb n 32 || Nat.eqb n 160)%bool.

Fixpoint trimStart (s : string) : string :=
  match s with
  | EmptyString => EmptyString
  | String c rest => if is_whitespace c then trimStart rest else s
  end.

(** Strips trailing white space: a character is dropped when it is white
    space and everything after it has been dropped. *)
Fixpoint trimEnd (s : string) : string :=
  match s with
  | EmptyString => EmptyString
  | String c rest =>
      match trimEnd rest with
      | EmptyString => if is_whitespace c then EmptyString else String c EmptyString
      | kept => String c kept
      end
  end.

Definition trim (s : string) : string := trimEnd (trimStart s).

Fixpoint all_whitespace (s : string) : bool :=
  match s with
  | EmptyString => true
  | String c rest => is_whitespace c && all_whitespace rest
  end.

(** An [Error] object as thrown by Babel, by the [Function] constructor or
    by [new Error(..)]: its name, its message, and whatever else the object
    carries (location, code frame, stack). *)
Record JsError := {
  err_name : string;
  err_message : string;
  err_detail : string
}.

(** Anything a [throw] can deliver to a [catch] clause. *)
Inductive Thrown :=
| ThrownError (e : JsError)
| ThrownString (s : string)
| ThrownNull
| ThrownUndefined.

(** [Error.prototype.toString]. *)
Definition error_toString (e : JsError) : string :=
  if negb (truthy (err_name e)) then err_message e
  else if negb (truthy (err_message e)) then err_name e
  else err_name e +:+ ": " +:+ err_message e.

(** [String(err)]. *)
Definition String_of (t : Thrown) : string :=
  match t with
  | ThrownError e => error_toString e
  | ThrownString s => s
  | ThrownNull => "null"
  | ThrownUndefined => "undefined"
  end.

Definition cannotRead (what : string) : Thrown :=
  ThrownError {| err_name := "TypeError";
                 err_message := "Cannot read properties of " +:+ what +:+
                                " (reading 'message')";
                 err_detail := "" |}.

(** [err.message]: [None] stands for undefined (a primitive has no such
    property); reading a property of null or undefined throws a TypeError,
    which is the [inl] case. *)
Definition message_of (t : Thrown) : Thrown + option string :=
  match t with
  | ThrownError e => inr (Some (err_message e))
  | ThrownString _ => inr None
  | ThrownNull => inl (cannotRead "null")
  | ThrownUndefined => inl (cannotRead "undefined")
  end.

(** The property names every plain object inherits from
    [Object.prototype]: reading one of them from an object that has no own
    property of that name gives a function (for [__proto__], the prototype
    itself), not [undefined]. *)
Definition objectPrototypeNames : list string :=
  [ "constructor"; "hasOwnProperty"; "isPrototypeOf"; "propertyIsEnumerable";
    "toLocaleString"; "toString"; "valueOf"; "__proto__";
    "__defineGetter__"; "__defineSetter__"; "__lookupGetter__";
    "__lookupSetter__" ].

(** [err.message || String(err)]. *)
Definition message_or_string (t : Thrown) : Thrown + string :=
  match message_of t with
  | inl e => inl e
  | inr m => inr (opt_or_else m (String_of t))
  end.

End Js.

(** A React component value: a widget module bundled with the application,
    the placeholder arrow function the studio builds for blank source, or
    the value returned by a dynamically created factory. *)
Inductive Component :=
| BuiltinWidget (name : string)
| PreviewPlaceholder
| Compiled (n : nat).

(** ** src/widgetRegistry.ts *)

Module WidgetRegistry.

Inductive FieldType := FText | FNumber | FSelect | FTextarea.

Record ConfigField := {
  key : string;
  label : string;
  type : FieldType;
  required : option bool;
  placeholder : option string;
  options : option (list (string * string));
  defaultValue : option string;
  helpText : option string
}.

Inductive ConfigurationMode := ConfigNone | ConfigAllowed | ConfigRequired.

Record AccessControl := { mockHasAccess : option bool }.

Record WidgetDefinition := {
  id : string;
  name : string;
  component : Component;
  defaultW : Z;
  defaultH : Z;
  description : option string;
  category : option string;
  domain : option string;
  isCertified : option bool;
  configurationMode : option ConfigurationMode;
  configSchema : option (list ConfigField);
  accessControl : option AccessControl;
  isExecutable : option bool
}.

(** [export const widgetRegistry: Record<string, WidgetDefinition> = {}]: a
    plain object used as a map.  [own] holds its own properties; [proto] is
    the definition that an assignment under the key [__proto__] has made
    its prototype, if there was such an assignment (the prototype is
    [Object.prototype] otherwise, and that of a definition always is). *)
Record Registry := {
  own : gmap string WidgetDefinition;
  proto : option WidgetDefinition
}.

Definition widgetRegistry : Registry := {| own := ∅; proto := None |}.

(** [registerWidget]: [widgetRegistry[def.id] = def].  The assignment
    creates or replaces an own property, with one exception: under the key
    [__proto__], unless the object has an own property of that name, it
    reaches the setter inherited from [Object.prototype], which makes the
    definition the prototype of the registry and adds no property. *)
Definition registerWidget (def : WidgetDefinition) (reg : Registry) : Registry :=
  match String.eqb (id def) "__proto__", own reg !! "__proto__" with
  | true, None => {| own := own reg; proto := Some def |}
  | _, _ => {| own := <[id def := def]> (own reg); proto := proto reg |}
  end.

(** What [widgetRegistry[k]] evaluates to: a definition, some other value
    (a member of [Object.prototype], or a property of the definition that
    is the prototype), or [undefined]. *)
Inductive Read :=
| Value (w : WidgetDefinition)
| Inherited
| Undefined.

(** The definition has a property of this name whose value is not
    [undefined]. *)
Definition definedProperty (d : WidgetDefinition) (k : string) : bool :=
  bool_decide (k ∈ ["id"; "name"; "component"; "defaultW"; "defaultH"])
  || String.eqb k "description" && bool_decide (is_Some (description d))
  || String.eqb k "category" && bool_decide (is_Some (category d))
  || String.eqb k "domain" && bool_decide (is_Some (domain d))
  || String.eqb k "isCertified" && bool_decide (is_Some (isCertified d))
  || String.eqb k "configurationMode" && bool_decide (is_Some (configurationMode d))
  || String.eqb k "configSchema" && bool_decide (is_Some (configSchema d))
  || String.eqb k "accessControl" && bool_decide (is_Some (accessControl d))
  || String.eqb k "isExecutable" && bool_decide (is_Some (isExecutable d)).

(** A read that finds no own property goes up the prototype chain: the
    definition that is the prototype, if any, then [Object.prototype]. *)
Definition inherited (p : option WidgetDefinition) (k : string) : Read :=
  if String.eqb k "__proto__" then
    match p with
    | Some d => Value d
    | None => Inherited
    end
  else if match p with
          | Some d => definedProperty d k
          | None => false
          end || bool_decide (k ∈ Js.objectPrototypeNames)
  then Inherited
  else Undefined.

(** [widgetRegistry[k]] *)
Definition get (reg : Registry) (k : string) : Read :=
  match own reg !! k with
  | Some w => Value w
  | None => inherited (proto reg) k
  end.

(** [Object.values(widgetRegistry)], given the own properties of the
    registry; the order of the values is not part of the model. *)
Definition getAvailableWidgets (reg : gmap string WidgetDefinition)
    : list WidgetDefinition :=
  (map_to_list reg).*2.

Definition getWidgetsByCategory (cat : string)
    (reg : gmap string WidgetDefinition) : list WidgetDefinition :=
  filter (fun w => Js.opt_or_else (category w) "Uncategorized" = cat)
         (getAvailableWidgets reg).

(** The registry after the module has run a sequence of registrations. *)
Definition registerAll (defs : list WidgetDefinition) : Registry :=
  foldl (fun reg def => registerWidget def reg) widgetRegistry defs.

(** The entries stored for one widget id. *)
Definition entriesFor (i : string) (reg : gmap string WidgetDefinition)
    : list WidgetDefinition :=
  filter (fun w => id w = i) (getAvailableWidgets reg).

(** Every entry sits under its own id. *)
Definition keyed (reg : gmap string WidgetDefinition) : Prop :=
  ∀ k w, reg !! k = Some w → id w = k.

End WidgetRegistry.

(** ** WidgetErrorBoundary (src/pages/WidgetStudio.tsx, lines 11-54) *)

Module ErrorBoundary.
Import Js.

Record State := {
  hasError : bool;
  error : option Thrown
}.

(** The constructor's [this.state]. *)
Definition initialState : State := {| hasError := false; error := None |}.

Definition getDerivedStateFromError (e : Thrown) : State :=
  {| hasError := true; error := Some e |}.

(** [componentDidCatch]: after logging, [this.props.onError?.(error)].  The
    callback is a function from the error to the effects it performs. *)
Definition componentDidCatch {E : Type} (onError : option (Thrown → list E))
    (e : Thrown) : list E :=
  match onError with
  | Some callback => callback e
  | None => []
  end.

(** [this.state.error?.message] *)
Definition error_message (s : State) : option string :=
  match error s with
  | Some (ThrownError e) => Some (err_message e)
  | Some (ThrownString _) => None
  | Some ThrownNull => None
  | Some ThrownUndefined => None
  | None => None
  end.

(** What the boundary puts on screen: the fixed fallback panel with the
    error message, or its children. *)
Inductive Markup :=
| Text (s : string)
| FallbackPanel (message : option string)
| Fragment (children : list Markup).

Definition render (s : State) (children : Markup) : Markup :=
  if hasError s then FallbackPanel (error_message s) else children.

(** The Try Again button: [this.setState({ hasError: false, error: null })]
    and then [this.props.onReset?.()]. *)
Definition tryAgain {E : Type} (onReset : option (list E)) : State * list E :=
  (initialState, match onReset with Some effects => effects | None => [] end).

(** A mounted React tree, as far as error handling goes: a component
    instance whose render either returns markup or throws, an error boundary
    with its state and [onError] prop around a subtree, or a host element
    with children. *)
Inductive Fiber (E : Type) :=
| Leaf (outcome : Thrown + string)
| Boundary (st : State) (onError : option (Thrown → list E)) (child : Fiber E)
| Host (children : list (Fiber E)).
Arguments Leaf {E} outcome.
Arguments Boundary {E} st onError child.
Arguments Host {E} children.

(** Renders the children of a host element in order; the first throw
    abandons the element and travels upwards. *)
Definition renderChildren {E : Type}
    (renderOne : Fiber E → Thrown + (Fiber E * Markup * list E))
    : list (Fiber E) → Thrown + (list (Fiber E) * list Markup * list E) :=
  fix go (l : list (Fiber E)) :=
    match l with
    | [] => inr ([], [], [])
    | f :: rest =>
        match renderOne f with
        | inl e => inl e
        | inr (f', m, eff) =>
            match go rest with
            | inl e => inl e
            | inr (rest', ms, effs) => inr (f' :: rest', m :: ms, eff ++ effs)
            end
        end
    end.

(** One render pass of React over a tree.  A throw below a boundary that
    has not failed yet is caught by it: React takes the state from
    [getDerivedStateFromError], renders the boundary again (now the
    fallback, the subtree stays unmounted) and calls [componentDidCatch].
    A boundary that has already failed does not render its children.  The
    [inl] result is a throw that no boundary in the tree caught. *)
Fixpoint renderPass {E : Type} (f : Fiber E)
    : Thrown + (Fiber E * Markup * list E) :=
  match f with
  | Leaf outcome =>
      match outcome with
      | inl e => inl e
      | inr s => inr (Leaf outcome, Text s, [])
      end
  | Boundary st onError child =>
      if hasError st then
        inr (Boundary st onError child, render st (Fragment []), [])
      else
        match renderPass child with
        | inr (child', m, eff) => inr (Boundary st onError child', render st m, eff)
        | inl e =>
            let st' := getDerivedStateFromError e in
            inr (Boundary st' onError child, render st' (Fragment []),
                 componentDidCatch onError e)
        end
  | Host children =>
      match renderChildren renderPass children with
      | inl e => inl e
      | inr (children', ms, eff) => inr (Host children', Fragment ms, eff)
      end
  end.

End ErrorBoundary.

(** ** The WidgetStudio component (src/pages/WidgetStudio.tsx) *)

Module WidgetStudio.
Import Js.

Inductive Role := user | assistant | system.

Record Message := { role : Role; content : string }.

Inductive ViewMode := PreviewMode | CodeMode | ConfigMode.

Inductive DataSourceType := DsNone | DsApi | DsSql.

(** The widget settings state of the configuration tab, with the schema
    extracted by the data source test and the id of the widget under edit. *)
Record Settings := {
  widgetName : string;
  widgetDescription : string;
  widgetCategory : string;
  widgetDomain : string;
  isExecutable : bool;
  dataSourceType : DataSourceType;
  dataSource : string;
  dataSourceSchema : option string;
  defaultW : Z;
  defaultH : Z;
  editingId : option string
}.

(** The [useState] cells of the component.  A value of this type is also
    what a closure created during a render sees of them. *)
Record State := {
  messages : list Message;
  prompt : string;
  isGenerating : bool;
  code : string;
  viewMode : ViewMode;
  previewComponent : option Component;
  previewError : option string;
  settings : Settings
}.

Definition quote : string := String (ascii_of_nat 34) EmptyString.
Definition newline : string := String (ascii_of_nat 10) EmptyString.

(** The initial source text of the editor. *)
Definition initialCode : string :=
  "export default function MyWidget() {" +:+ newline +:+
  "  return (" +:+ newline +:+
  "    <div className=" +:+ quote +:+
  "p-4 bg-white rounded-lg shadow h-full flex items-center justify-center"
  +:+ quote +:+ ">" +:+ newline +:+
  "      <h3 className=" +:+ quote +:+ "text-xl font-bold text-slate-800"
  +:+ quote +:+ ">Hello Widget</h3>" +:+ newline +:+
  "    </div>" +:+ newline +:+
  "  );" +:+ newline +:+
  "}".

Definition initialSettings : Settings :=
  {| widgetName := "New Custom Widget"; widgetDescription := "";
     widgetCategory := "Custom"; widgetDomain := "General";
     isExecutable := false; dataSourceType := DsNone; dataSource := "";
     dataSourceSchema := None; defaultW := 6; defaultH := 6;
     editingId := None |}.

Definition initialState : State :=
  {| messages :=
       [ {| role := assistant;
            content := "Welcome to the Widget Studio! Briefly describe the widget you want to build." |} ];
     prompt := ""; isGenerating := false; code := initialCode;
     viewMode := PreviewMode; previewComponent := None; previewError := None;
     settings := initialSettings |}.

(** *** State setters *)

Definition setMessages (f : list Message → list Message) (s : State) : State :=
  {| messages := f (messages s); prompt := prompt s;
     isGenerating := isGenerating s; code := code s; viewMode := viewMode s;
     previewComponent := previewComponent s; previewError := previewError s;
     settings := settings s |}.

Definition setPrompt (p : string) (s : State) : State :=
  {| messages := messages s; prompt := p; isGenerating := isGenerating s;
     code := code s; viewMode := viewMode s;
     previewComponent := previewComponent s; previewError := previewError s;
     settings := settings s |}.

Definition setIsGenerating (b : bool) (s : State) : State :=
  {| messages := messages s; prompt := prompt s; isGenerating := b;
     code := code s; viewMode := viewMode s;
     previewComponent := previewComponent s; previewError := previewError s;
     settings := settings s |}.

Definition setCode (c : string) (s : State) : State :=
  {| messages := messages s; prompt := prompt s;
     isGenerating := isGenerating s; code := c; viewMode := viewMode s;
     previewComponent := previewComponent s; previewError := previewError s;
     settings := settings s |}.

Definition setViewMode (m : ViewMode) (s : State) : State :=
  {| messages := messages s; prompt := prompt s;
     isGenerating := isGenerating s; code := code s; viewMode := m;
     previewComponent := previewComponent s; previewError := previewError s;
     settings := settings s |}.

Definition setPreviewComponent (c : option Component) (s : State) : State :=
  {| messages := messages s; prompt := prompt s;
     isGenerating := isGenerating s; code := code s; viewMode := viewMode s;
     previewComponent := c; previewError := previewError s;
     settings := settings s |}.

Definition setPreviewError (e : option string) (s : State) : State :=
  {| messages := messages s; prompt := prompt s;
     isGenerating := isGenerating s; code := code s; viewMode := viewMode s;
     previewComponent := previewComponent s; previewError := e;
     settings := settings s |}.

Definition setSettings (f : Settings → Settings) (s : State) : State :=
  {| messages := messages s; prompt := prompt s;
     isGenerating := isGenerating s; code := code s; viewMode := viewMode s;
     previewComponent := previewComponent s; previewError := previewError s;
     settings := f (settings s) |}.

(** *** What the handlers act on *)

(** The argument a pending auto-retry timer will pass to [handleGenerate]:
    the message computed by [evaluateCode] before it set the timer, or the
    error the boundary handed to [onError], whose message is only read when
    the timer runs. *)
Inductive RetryArg :=
| ErrorMsg (msg : string)
| CaughtError (e : Thrown).

(** [setTimeout(() => handleGenerate(..), delay)]: the delay, the argument
    and the render whose [handleGenerate] the arrow function closes over. *)
Record Retry := {
  retry_delay : nat;
  retry_arg : RetryArg;
  retry_closure : State
}.

(** The React state together with the timers set so far. *)
Record Heap := {
  hooks : State;
  scheduled : list Retry
}.

(** Statements of a handler: they update the heap and either complete with
    a value or throw.  Updates made before a throw stay. *)
Definition Stmt (A : Type) : Type := Heap → Heap * (Thrown + A).

Definition ret {A : Type} (a : A) : Stmt A := fun h => (h, inr a).

Definition throw {A : Type} (e : Thrown) : Stmt A := fun h => (h, inl e).

Definition bind {A B : Type} (m : Stmt A) (k : A → Stmt B) : Stmt B :=
  fun h =>
    match m h with
    | (h', inr a) => k a h'
    | (h', inl e) => (h', inl e)
    end.

Notation "'do' x <- m ; k" := (bind m (fun x => k))
  (at level 10, x name, m at level 100, k at level 200).

(** [try { body } catch (err) { handler }] *)
Definition try_catch {A : Type} (body : Stmt A) (handler : Thrown → Stmt A)
    : Stmt A :=
  fun h =>
    match body h with
    | (h', inr a) => (h', inr a)
    | (h', inl e) => handler e h'
    end.

(** [try { body } finally { cleanup }] with a cleanup that cannot throw. *)
Definition try_finally {A : Type} (body : Stmt A) (cleanup : State → State)
    : Stmt A :=
  fun h =>
    match body h with
    | (h', r) => ({| hooks := cleanup (hooks h'); scheduled := scheduled h' |}, r)
    end.

(** A state setter call. *)
Definition set (f : State → State) : Stmt unit :=
  fun h => ({| hooks := f (hooks h); scheduled := scheduled h |}, inr tt).

(** [setTimeout(() => handleGenerate(arg), delay)] in a render [closure]. *)
Definition setTimeout_handleGenerate (arg : RetryArg) (closure : State)
    (delay : nat) : Stmt unit :=
  fun h =>
    ({| hooks := hooks h;
        scheduled := scheduled h ++
          [ {| retry_delay := delay; retry_arg := arg; retry_closure := closure |} ] |},
     inr tt).

(** Lifts a call into library code that returns or throws. *)
Definition call {A : Type} (r : Thrown + A) : Stmt A := fun h => (h, r).

(** *** The browser around the component *)

(** [window.Babel] (absent when the CDN script did not load) with its
    [transform(code, ..).code], and the step from transpiled text to a
    component value: the two [replace] calls on the export statement, the
    [Function] constructor and the call of the created function with React,
    useScript and Highcharts.  A factory may return undefined ([None]). *)
Record Browser := {
  Babel : option (string → JsError + string);
  createComponent : string → Thrown + option Component
}.

Definition babelMissing : JsError :=
  {| err_name := "Error";
     err_message := "Babel compiler missing. Please ensure babel-standalone CDN is loaded.";
     err_detail := "" |}.

(** [!code || code.trim() === ''] *)
Definition blank (c : string) : bool :=
  negb (truthy c) || String.eqb (trim c) "".

(** [previewError !== errorMsg] *)
Definition differs (p : option string) (msg : string) : bool :=
  match p with
  | Some q => negb (String.eqb q msg)
  | None => true
  end.

(** *** evaluateCode (lines 118-166), run by the debounce timer.  [env] is
    the render that created the effect; its [previewError], [isGenerating]
    and [handleGenerate] are the ones the closure reads. *)
Definition evaluateCode (B : Browser) (env : State) : Stmt unit :=
  try_catch
    (do _ <- set (setPreviewError None) ;
     do transform <- match Babel B with
                     | Some t => ret t
                     | None => throw (ThrownError babelMissing)
                     end ;
     if blank (code env) then
       set (setPreviewComponent (Some PreviewPlaceholder))
     else
       do transpiled <- call (match transform (code env) with
                              | inl e => inl (ThrownError e)
                              | inr js => inr js
                              end) ;
       do Component <- call (createComponent B transpiled) ;
       set (setPreviewComponent Component))
    (fun err =>
       do errorMsg <- call (message_or_string err) ;
       if differs (previewError env) errorMsg then
         do _ <- set (setPreviewError (Some errorMsg)) ;
         do _ <- set (setPreviewComponent None) ;
         if negb (isGenerating env) then
           setTimeout_handleGenerate (ErrorMsg errorMsg) env 1000
         else ret tt
       else ret tt).

(** The message [evaluateCode] derives from an error object:
    [err.message || String(err)]. *)
Definition errorText (e : JsError) : string :=
  or_else (err_message e) (error_toString e).

(** The source [c] does not yield a component: Babel is loaded and rejects
    it with the error object [err], or Babel accepts it and the factory
    built from the transpiled text throws [err] when it is constructed or
    called. *)
Definition compileFailure (B : Browser) (c : string) (err : JsError) : Prop :=
  ∃ transform, Babel B = Some transform
    ∧ (transform c = inl err
       ∨ ∃ js, transform c = inr js ∧ createComponent B js = inl (ThrownError err)).

(** The timer [evaluateCode] sets for a message in the render [env]. *)
Definition retryFor (msg : string) (env : State) : Retry :=
  {| retry_delay := 1000; retry_arg := ErrorMsg msg; retry_closure := env |}.

(** *** handleGenerate (lines 173-227) *)

(** The JSON body of the POST to /api/agent/widget/generate.  [None] is the
    JSON null. *)
Record GenerateRequest := {
  req_prompt : option string;
  history : list Message;
  error_log : option string;
  current_code : option string;
  data_source_schema : option string;
  data_source : option string;
  data_source_type : option DataSourceType
}.

(** A fetch that has been sent and not yet answered, with what the rest of
    the async function still holds: its local [newMessages] and its
    argument. *)
Record Pending := {
  request : GenerateRequest;
  newMessages : list Message;
  autoRetryError : option string
}.

Definition is_system (m : Message) : bool :=
  match role m with
  | system => true
  | _ => false
  end.

Definition retryNotice (err : string) : Message :=
  {| role := system;
     content := "Auto-retrying due to compilation error: " +:+ err |}.

Definition fixPrompt : string := "Please fix the compilation error in the code.".

(** The request built in the render [env]. *)
Definition generateRequest (autoRetryError : option string) (env : State)
    : GenerateRequest :=
  let cfg := settings env in
  let withSource :=
    match dataSourceType cfg with
    | DsNone => false
    | _ => true
    end in
  {| req_prompt := Some (or_else (prompt env) fixPrompt);
     history := filter (fun m => negb (is_system m)) (messages env);
     error_log := opt_or_opt autoRetryError (previewError env);
     current_code := Some (code env);
     data_source_schema := dataSourceSchema cfg;
     data_source := if withSource then Some (dataSource cfg) else None;
     data_source_type := if withSource then Some (dataSourceType cfg) else None |}.

(** The function up to its first [await]: the early return, the new turn,
    [setIsGenerating(true)] and the fetch.  [None] is the early return. *)
Definition handleGenerate_send (autoRetryError : option string) (env : State)
    (s : State) : State * option Pending :=
  if negb (truthy (prompt env)) && negb (truthy_opt autoRetryError) then
    (s, None)
  else
    let (s1, newMessages) :=
      match autoRetryError with
      | Some err =>
          if truthy err then
            (setMessages (fun prev => prev ++ [retryNotice err]) s,
             messages env ++ [retryNotice err])
          else
            let turns := messages env ++ [ {| role := user; content := prompt env |} ] in
            (setPreviewError None (setPrompt "" (setMessages (fun _ => turns) s)),
             turns)
      | None =>
          let turns := messages env ++ [ {| role := user; content := prompt env |} ] in
          (setPreviewError None (setPrompt "" (setMessages (fun _ => turns) s)),
           turns)
      end in
    (setIsGenerating true s1,
     Some {| request := generateRequest autoRetryError env;
             newMessages := newMessages;
             autoRetryError := autoRetryError |}).

(** The JSON the generation service answers with. *)
Record GenerateData := {
  data_code : option string;
  explanation : option string;
  detail : option string
}.

(** How an outstanding fetch ends: [fetch] or [resp.json()] rejects, or a
    response with its [ok] flag, status text and parsed body arrives. *)
Inductive Response :=
| Rejected (e : Thrown)
| Answered (ok : bool) (statusText : string) (data : GenerateData).

Definition systemTurn (text : string) : Message :=
  {| role := system; content := text |}.

Definition assistantTurn (text : string) : Message :=
  {| role := assistant; content := text |}.

(** The function from the first [await] to its end. *)
Definition handleGenerate_receive (p : Pending) (r : Response) : Stmt unit :=
  try_finally
    (try_catch
       (do answer <- match r with
                     | Rejected e => throw e
                     | Answered ok statusText data => ret (ok, statusText, data)
                     end ;
        let '(ok, statusText, data) := answer in
        if negb ok then
          do _ <- set (setMessages (fun _ =>
                    newMessages p ++
                    [systemTurn ("Server Error: " +:+ opt_or_else (detail data) statusText)])) ;
          set (setIsGenerating false)
        else
          do _ <- (if truthy_opt (data_code data)
                   then set (setCode (default "" (data_code data)))
                   else ret tt) ;
          if negb (truthy_opt (autoRetryError p)) then
            set (setMessages (fun _ =>
              newMessages p ++
              [assistantTurn (opt_or_else (explanation data) "Widget code generated.")]))
          else
            set (setMessages (fun _ =>
              newMessages p ++
              [assistantTurn (opt_or_else (explanation data)
                                "I've attempted to fix the compilation error.")])))
       (fun e =>
          set (setMessages (fun _ =>
            newMessages p ++ [systemTurn ("Network Error: " +:+ String_of e)]))))
    (setIsGenerating false).

(** The text of the system message a failed fetch ends in; [None] for a
    response with the [ok] flag set. *)
Definition failureText (r : Response) : option string :=
  match r with
  | Rejected e => Some ("Network Error: " +:+ String_of e)
  | Answered false statusText data =>
      Some ("Server Error: " +:+ opt_or_else (detail data) statusText)
  | Answered true _ _ => None
  end.

(** The boundary's [onError] prop in the render [env] (lines 433-437). *)
Definition onError (env : State) (err : Thrown) : list Retry :=
  if negb (isGenerating env) then
    [ {| retry_delay := 1000; retry_arg := CaughtError err; retry_closure := env |} ]
  else [].

(** The argument of [handleGenerate] when a retry timer runs; for an error
    caught by the boundary this evaluates [err.message || String(err)] and
    may throw instead. *)
Definition retryArgument (a : RetryArg) : Thrown + string :=
  match a with
  | ErrorMsg msg => inr msg
  | CaughtError e => message_or_string e
  end.

(** *** Loading a saved widget for editing (lines 87-107) *)

(** A row of /api/widgets/custom as the effect reads it; [None] is a field
    that is missing or null. *)
Record SavedWidget := {
  sw_id : string;
  sw_name : string;
  sw_description : option string;
  sw_category : option string;
  sw_domain : option string;
  sw_tsx_code : string;
  sw_data_source_type : option DataSourceType;
  sw_data_source : option string;
  sw_default_w : option Z;
  sw_default_h : option Z
}.

(** [n || 6] on a number that may be missing. *)
Definition number_or_six (n : option Z) : Z :=
  match n with
  | Some z => if Z.eqb z 0 then 6%Z else z
  | None => 6%Z
  end.

(** The state updates made when the widget named by [editWidgetId] has
    been fetched. *)
Definition loadWidget (w : SavedWidget) (s : State) : State :=
  setMessages (fun _ =>
      [ {| role := assistant;
           content := "Loaded " +:+ quote +:+ sw_name w +:+ quote +:+
                      " for editing. Describe what you'd like to change." |} ])
    (setCode (sw_tsx_code w)
       (setSettings (fun cfg =>
            {| widgetName := sw_name w;
               widgetDescription := opt_or_else (sw_description w) "";
               widgetCategory := opt_or_else (sw_category w) "Custom";
               widgetDomain := opt_or_else (sw_domain w) "General";
               isExecutable := isExecutable cfg;
               dataSourceType := default DsNone (sw_data_source_type w);
               dataSource := opt_or_else (sw_data_source w) "";
               dataSourceSchema := dataSourceSchema cfg;
               defaultW := number_or_six (sw_default_w w);
               defaultH := number_or_six (sw_default_h w);
               editingId := Some (sw_id w) |}) s)).

(** *** handlePublish (lines 229-264): the request it sends *)

Inductive Method := POST | PUT.

Record PublishBody := {
  pb_name : string;
  pb_description : string;
  pb_category : string;
  pb_domain : string;
  tsx_code : string;
  pb_isExecutable : bool;
  pb_data_source_type : DataSourceType;
  pb_data_source : string;
  default_w : Z;
  default_h : Z
}.

Record PublishRequest := {
  url : string;
  method : Method;
  body : PublishBody
}.

Definition handlePublish (env : State) : PublishRequest :=
  let cfg := settings env in
  let isEditing := truthy_opt (editingId cfg) in
  {| url := if isEditing
            then "/api/widgets/custom/" +:+ default "" (editingId cfg)
            else "/api/widgets/custom";
     method := if isEditing then PUT else POST;
     body := {| pb_name := widgetName cfg;
                pb_description := widgetDescription cfg;
                pb_category := widgetCategory cfg;
                pb_domain := widgetDomain cfg;
                tsx_code := code env;
                pb_isExecutable := isExecutable cfg;
                pb_data_source_type := dataSourceType cfg;
                pb_data_source := dataSource cfg;
                default_w := defaultW cfg;
                default_h := defaultH cfg |} |}.

(** *** The mounted component over time

    One record for everything that outlives a handler call: the clock, the
    React state, the pending debounce timer of the [code] effect with the
    render it closes over, the pending auto-retry timers, the fetches not
    yet answered, and the state of the preview's error boundary while it is
    mounted. *)
Record Studio := {
  now : nat;
  ui : State;
  debounce : option (nat * State);
  retries : list (nat * Retry);
  inflight : list Pending;
  boundary : option ErrorBoundary.State
}.

(** The preview branch of the JSX that holds the boundary: preview tab, no
    (truthy) preview error, a preview component. *)
Definition boundaryMounted (s : State) : bool :=
  match viewMode s with
  | PreviewMode => negb (truthy_opt (previewError s)) && bool_decide (is_Some (previewComponent s))
  | _ => false
  end.

(** A render after a batch of state updates.  The effect on [code] runs
    again when [code] changed: its cleanup clears the old debounce timer and
    a new 500 ms timer closes over this render.  New timers get their due
    time; the boundary keeps its state while it stays mounted and starts
    afresh when it is mounted again. *)
Definition commit (w : Studio) (s' : State) (b : option ErrorBoundary.State)
    (timers : list Retry) (sent : list Pending) : Studio :=
  {| now := now w;
     ui := s';
     debounce := if String.eqb (code (ui w)) (code s') then debounce w
                 else Some (now w + 500, s');
     retries := retries w ++ map (fun r => (now w + retry_delay r, r)) timers;
     inflight := inflight w ++ sent;
     boundary := if boundaryMounted s'
                 then Some (default ErrorBoundary.initialState b)
                 else None |}.

(** The component right after its first render: the [code] effect has set
    its first debounce timer. *)
Definition mount (s : State) : Studio :=
  {| now := 0; ui := s; debounce := Some (500, s); retries := [];
     inflight := []; boundary := None |}.

(** What can happen to the mounted component: time passes; the user edits
    the source, the prompt, changes the tab, sends the prompt with the Enter
    key or the Send button, clicks Try Again on the fallback; the debounce
    timer or a retry timer runs; an outstanding fetch ends; the previewed
    component throws while React renders it; the widget to edit arrives; the
    settings change (an input of the configuration tab, the data source
    test). *)
Inductive Event :=
| Wait (ms : nat)
| EditCode (c : string)
| EditPrompt (p : string)
| SwitchView (m : ViewMode)
| PressEnter
| ClickSend
| DebounceFires
| RetryFires (k : nat)
| Responds (k : nat) (r : Response)
| PreviewThrows (e : Thrown)
| ClickTryAgain
| WidgetLoaded (saved : SavedWidget)
| Configure (cfg : Settings).

(** A call of [handleGenerate] from the render [env]. *)
Definition callHandleGenerate (w : Studio) (arg : option string) (env : State)
    : Studio :=
  let (s', sent) := handleGenerate_send arg env (ui w) in
  commit w s' (boundary w) [] (option_list sent).

(** The times at which the pending timers are due. *)
Definition dueTimes (w : Studio) : list nat :=
  match debounce w with
  | Some (due, _) => [due]
  | None => []
  end ++ map fst (retries w).

(** One event; [None] when it cannot happen in this state: no such timer or
    fetch, a timer that is not due, time passing beyond the due time of a
    timer that has not run, a disabled button, no mounted child to throw. *)
Definition step (B : Browser) (w : Studio) (ev : Event) : option Studio :=
  match ev with
  | Wait ms =>
      if forallb (fun due => (now w + ms <=? due)%nat) (dueTimes w) then
        Some {| now := now w + ms; ui := ui w; debounce := debounce w;
                retries := retries w; inflight := inflight w;
                boundary := boundary w |}
      else None
  | EditCode c => Some (commit w (setCode c (ui w)) (boundary w) [] [])
  | EditPrompt p => Some (commit w (setPrompt p (ui w)) (boundary w) [] [])
  | SwitchView m => Some (commit w (setViewMode m (ui w)) (boundary w) [] [])
  | PressEnter => Some (callHandleGenerate w None (ui w))
  | ClickSend =>
      if isGenerating (ui w) || negb (truthy (prompt (ui w))) then None
      else Some (callHandleGenerate w None (ui w))
  | DebounceFires =>
      match debounce w with
      | Some (due, env) =>
          if (due <=? now w)%nat then
            let (h, _) := evaluateCode B env {| hooks := ui w; scheduled := [] |} in
            let w' := {| now := now w; ui := ui w; debounce := None;
                         retries := retries w; inflight := inflight w;
                         boundary := boundary w |} in
            Some (commit w' (hooks h) (boundary w) (scheduled h) [])
          else None
      | None => None
      end
  | RetryFires k =>
      match retries w !! k with
      | Some (due, r) =>
          if (due <=? now w)%nat then
            let w' := {| now := now w; ui := ui w; debounce := debounce w;
                         retries := delete k (retries w);
                         inflight := inflight w; boundary := boundary w |} in
            match retryArgument (retry_arg r) with
            | inr msg => Some (callHandleGenerate w' (Some msg) (retry_closure r))
            | inl _ => Some w'
            end
          else None
      | None => None
      end
  | Responds k r =>
      match inflight w !! k with
      | Some p =>
          let (h, _) := handleGenerate_receive p r {| hooks := ui w; scheduled := [] |} in
          let w' := {| now := now w; ui := ui w; debounce := debounce w;
                       retries := retries w; inflight := delete k (inflight w);
                       boundary := boundary w |} in
          Some (commit w' (hooks h) (boundary w) (scheduled h) [])
      | None => None
      end
  | PreviewThrows e =>
      match boundary w with
      | Some b =>
          if ErrorBoundary.hasError b then None
          else
            match ErrorBoundary.renderPass
                    (ErrorBoundary.Boundary b (Some (onError (ui w)))
                       (ErrorBoundary.Leaf (inl e))) with
            | inr (ErrorBoundary.Boundary b' _ _, _, timers) =>
                Some (commit w (ui w) (Some b') timers [])
            | _ => None
            end
      | None => None
      end
  | ClickTryAgain =>
      match boundary w with
      | Some b =>
          if ErrorBoundary.hasError b then
            let (b', reset) :=
              ErrorBoundary.tryAgain (Some [setPreviewComponent None]) in
            Some (commit w (foldl (fun s f => f s) (ui w) reset) (Some b') [] [])
          else None
      | None => None
      end
  | WidgetLoaded saved =>
      Some (commit w (loadWidget saved (ui w)) (boundary w) [] [])
  | Configure cfg =>
      Some (commit w (setSettings (fun _ => cfg) (ui w)) (boundary w) [] [])
  end.

Fixpoint run (B : Browser) (w : Studio) (evs : list Event) : option Studio :=
  match evs with
  | [] => Some w
  | ev :: rest =>
      match step B w ev with
      | Some w' => run B w' rest
      | None => None
      end
  end.

(** The pending debounce timer, if any, closes over the current source. *)
Definition debounceCurrent (w : Studio) : Prop :=
  ∀ due env, debounce w = Some (due, env) → code env = code (ui w).

(** The fetches in flight that are automatic corrections. *)
Definition autoCorrections (w : Studio) : list Pending :=
  filter (fun p => truthy_opt (autoRetryError p) = true) (inflight w).

End WidgetStudio.

(** ** Array.prototype.sort *)

Module JsArray.

(** Inserts [x] before the first element it may precede. *)
Fixpoint insertBy {A : Type} (le : A → A → bool) (x : A) (l : list A) : list A :=
  match l with
  | [] => [x]
  | y :: rest => if le x y then x :: l else y :: insertBy le x rest
  end.

(** [Array.prototype.sort]: the sort is stable, so its result is fixed by
    the order alone; it is given here by insertion from the right, which
    keeps elements that compare equal in their original order.  [le a b]
    says that [a] need not come after [b].  This is the result for a
    consistent comparator; for any other the language leaves the order to
    the engine. *)
Definition sortBy {A : Type} (le : A → A → bool) (l : list A) : list A :=
  foldr (insertBy le) [] l.

(** [Array.prototype.splice(start, deleteCount = 1)] with a start index
    that is not negative: the removed element, if there is one, and the
    rest. *)
Definition spliceOut {A : Type} (start : nat) (l : list A) : option A * list A :=
  (l !! start, take start l ++ drop (S start) l).

(** [Array.prototype.splice(start, 0, item)] with a start index that is not
    negative: past the end it appends. *)
Definition spliceIn {A : Type} (start : nat) (item : A) (l : list A) : list A :=
  take start l ++ item :: drop start l.

End JsArray.

(** ** The grouping functions of src/widgetRegistry.ts (lines 420-440) *)

Module RegistryViews.
Import WidgetRegistry.

(** [w.category || 'Uncategorized'] *)
Definition categoryOf (w : WidgetDefinition) : string :=
  Js.opt_or_else (category w) "Uncategorized".

(** [getWidgetCategories]: a [Set] filled from the values of the registry,
    turned into an array and sorted with the default order of strings. *)
Definition getWidgetCategories (reg : gmap string WidgetDefinition) : list string :=
  JsArray.sortBy String.leb
    (elements (list_to_set (categoryOf <$> getAvailableWidgets reg) : gset string)).

(** The domains added to the set in [getWidgetDomains]: those that are
    truthy. *)
Definition domainsOf (w : WidgetDefinition) : list string :=
  match domain w with
  | Some d => if Js.truthy d then [d] else []
  | None => []
  end.

(** [getWidgetDomains] *)
Definition getWidgetDomains (reg : gmap string WidgetDefinition) : list string :=
  JsArray.sortBy String.leb
    (elements (list_to_set (getAvailableWidgets reg ≫= domainsOf) : gset string)).

End RegistryViews.

(** ** The widget list of the tray (src/components/WidgetTray.tsx, lines 96-137 and 376-379) *)

Module WidgetTray.
Import WidgetRegistry.

(** [String.prototype.toLowerCase] on one code unit below 256: the letters
    A to Z and the capital letters of Latin-1 (not the multiplication sign)
    move by 32. *)
Definition lowerChar (c : ascii) : ascii :=
  let n := nat_of_ascii c in
  if ((65 <=? n)%nat && (n <=? 90)%nat)
     || ((192 <=? n)%nat && (n <=? 222)%nat && negb (n =? 215)%nat)
  then ascii_of_nat (n + 32)
  else c.

Fixpoint toLowerCase (s : string) : string :=
  match s with
  | EmptyString => EmptyString
  | String c rest => String (lowerChar c) (toLowerCase rest)
  end.

(** [s.includes(q)]: [q] starts at some position of [s]. *)
Fixpoint includes (s q : string) : bool :=
  String.prefix q s
  || match s with
     | EmptyString => false
     | String _ rest => includes rest q
     end.

Inductive Grouping := ByCategory | ByDomain.

Inductive AccessFilter := AllWidgets | Accessible | Restricted.

(** The state and props the list depends on. *)
Record Filters := {
  searchQuery : string;
  selectedGroup : option string;
  grouping : Grouping;
  showCertifiedOnly : bool;
  accessFilter : AccessFilter
}.

(** [(w.category || 'Uncategorized')] or [(w.domain || 'Uncategorized')] *)
Definition groupOf (g : Grouping) (w : WidgetDefinition) : string :=
  match g with
  | ByCategory => Js.opt_or_else (category w) "Uncategorized"
  | ByDomain => Js.opt_or_else (domain w) "Uncategorized"
  end.

(** [w.name.toLowerCase().includes(query) ||
     w.description?.toLowerCase().includes(query)] *)
Definition matchesSearch (query : string) (w : WidgetDefinition) : bool :=
  includes (toLowerCase (name w)) query
  || match description w with
     | Some d => includes (toLowerCase d) query
     | None => false
     end.

(** [w.isCertified || w.category === 'Custom'] *)
Definition certifiedOrCustom (w : WidgetDefinition) : bool :=
  match isCertified w with
  | Some true => true
  | _ => bool_decide (category w = Some "Custom")
  end.

(** [w.accessControl?.mockHasAccess === false] *)
Definition restricted (w : WidgetDefinition) : bool :=
  match accessControl w with
  | Some ac => bool_decide (mockHasAccess ac = Some false)
  | None => false
  end.

(** A score as the comparator meets it: a number, or a value whose
    difference with anything is [NaN]. *)
Inductive Score := Number (z : Z) | NotANumber.

(** [popularityScores[w.id] || 0].  [scores] holds the own properties of
    the object, which is [{}] or parsed from JSON.  For an id without a
    score the read goes on to [Object.prototype]: an id that names one of
    its members reads that member, a function or an object, which is truthy
    and stays; any other id reads [undefined] and gets 0. *)
Definition popularity (scores : gmap string Z) (w : WidgetDefinition) : Score :=
  match scores !! id w with
  | Some z => Number z
  | None =>
      if bool_decide (id w ∈ Js.objectPrototypeNames) then NotANumber
      else Number 0
  end.

(** The comparator [(a, b) => scoreB - scoreA] as an order: [a] need not
    come after [b] when the difference is not positive.  A difference that
    is [NaN] counts as zero in [Array.prototype.sort]. *)
Definition morePopular (scores : gmap string Z) (a b : WidgetDefinition) : bool :=
  match popularity scores a, popularity scores b with
  | Number scoreA, Number scoreB => (scoreB <=? scoreA)%Z
  | _, _ => true
  end.

Definition byGroup (f : Filters) (widgets : list WidgetDefinition)
    : list WidgetDefinition :=
  if negb (Js.truthy (searchQuery f)) && Js.truthy_opt (selectedGroup f) then
    filter (fun w => Some (groupOf (grouping f) w) = selectedGroup f) widgets
  else widgets.

Definition bySearch (f : Filters) (widgets : list WidgetDefinition)
    : list WidgetDefinition :=
  if Js.truthy (searchQuery f) then
    filter (fun w => matchesSearch (toLowerCase (searchQuery f)) w = true) widgets
  else widgets.

Definition byCertified (f : Filters) (widgets : list WidgetDefinition)
    : list WidgetDefinition :=
  if showCertifiedOnly f then filter (fun w => certifiedOrCustom w = true) widgets
  else widgets.

Definition byAccess (f : Filters) (widgets : list WidgetDefinition)
    : list WidgetDefinition :=
  match accessFilter f with
  | Accessible => filter (fun w => restricted w = false) widgets
  | Restricted => filter (fun w => restricted w = true) widgets
  | AllWidgets => widgets
  end.

(** [filteredWidgets]: the four filters in the order of the source, then
    the sort by popularity.  [allWidgets] is the memoized array as the call
    finds it: when no filter applies, [sort] reorders that very array. *)
Definition filteredWidgets (f : Filters) (scores : gmap string Z)
    (allWidgets : list WidgetDefinition) : list WidgetDefinition :=
  JsArray.sortBy (morePopular scores)
    (byAccess f (byCertified f (bySearch f (byGroup f allWidgets)))).

(** The number shown beside a group in the sidebar. *)
Definition groupCount (g : Grouping) (group : string)
    (allWidgets : list WidgetDefinition) : nat :=
  length (filter (fun w => groupOf g w = group) allWidgets).

End WidgetTray.

(** ** More of src/pages/WidgetStudio.tsx *)

Module StudioExtras.
Import Js WidgetStudio.

(** *** handleTestDataSource (lines 266-291) *)

(** The two state cells of the data source test that are not part of the
    settings record. *)
Record TestStatus := {
  isTestingDataSource : bool;
  dataSourceTestError : option string
}.

(** The JSON body of the POST to /api/agent/widget/datasource/test. *)
Record TestRequest := {
  test_data_source_type : DataSourceType;
  test_data_source : string
}.

(** The JSON the probe service answers with. *)
Record TestData := {
  test_schema : option string;
  test_detail : option string
}.

Inductive TestResponse :=
| TestRejected (e : Thrown)
| TestAnswered (ok : bool) (data : TestData).

Definition setSchema (schema : option string) (cfg : Settings) : Settings :=
  {| widgetName := widgetName cfg; widgetDescription := widgetDescription cfg;
     widgetCategory := widgetCategory cfg; widgetDomain := widgetDomain cfg;
     isExecutable := isExecutable cfg; dataSourceType := dataSourceType cfg;
     dataSource := dataSource cfg; dataSourceSchema := schema;
     defaultW := defaultW cfg; defaultH := defaultH cfg;
     editingId := editingId cfg |}.

(** The function up to its [await]: [None] is the early return. *)
Definition handleTestDataSource_send (cfg : Settings) (t : TestStatus)
    : option (Settings * TestStatus * TestRequest) :=
  match dataSourceType cfg with
  | DsNone => None
  | kind =>
      if negb (truthy (dataSource cfg)) then None
      else Some (setSchema None cfg,
                 {| isTestingDataSource := true; dataSourceTestError := None |},
                 {| test_data_source_type := kind;
                    test_data_source := dataSource cfg |})
  end.

(** The function from its [await] to its end; the third component is what
    the [catch] clause itself throws, if it does. *)
Definition handleTestDataSource_receive (r : TestResponse) (cfg : Settings)
    (t : TestStatus) : Settings * TestStatus * option Thrown :=
  let done (e : option string) :=
    {| isTestingDataSource := false; dataSourceTestError := e |} in
  match r with
  | TestAnswered true data =>
      (setSchema (test_schema data) cfg, done (dataSourceTestError t), None)
  | TestAnswered false data =>
      (cfg, done (Some (opt_or_else (test_detail data) "Error testing data source")),
       None)
  | TestRejected e =>
      match message_or_string e with
      | inr msg => (cfg, done (Some msg), None)
      | inl thrown => (cfg, done (dataSourceTestError t), Some thrown)
      end
  end.

(** *** The data source line above the prompt box (lines 338-345) *)

(** [s.replace(/\s+/g, ' ')]: every maximal run of white space becomes one
    space.  [inRun] says that the character before was white space. *)
Fixpoint collapse (inRun : bool) (s : string) : string :=
  match s with
  | EmptyString => EmptyString
  | String c rest =>
      if is_whitespace c then
        if inRun then collapse true rest
        else String " "%char (collapse true rest)
      else String c (collapse false rest)
  end.

Definition collapseWhitespace (s : string) : string := collapse false s.

(** The text of the line, and whether the ellipsis follows it:
    [dataSource.replace(/\s+/g, ' ').slice(0, 80)] and
    [dataSource.length > 80]. *)
Definition dataSourceLine (source : string) : string * bool :=
  (String.substring 0 80 (collapseWhitespace source),
   (80 <? String.length source)%nat).

(** No white space but single spaces; [afterSpace] says that the character
    before was a space. *)
Fixpoint singleSpaced (afterSpace : bool) (s : string) : bool :=
  match s with
  | EmptyString => true
  | String c rest =>
      if is_whitespace c then
        Ascii.eqb c " "%char && negb afterSpace && singleSpaced true rest
      else singleSpaced false rest
  end.

(** *** What stays true while the studio runs *)

(** An error on screen and a preview component exclude each other. *)
Definition errorOrComponent (s : State) : Prop :=
  is_Some (previewError s) → previewComponent s = None.

(** Every pending retry timer was set by a render in which no generation
    was in flight. *)
Definition retriesSetWhileIdle (w : Studio) : Prop :=
  Forall (fun timer => isGenerating (retry_closure timer.2) = false) (retries w).

(** With no fetch outstanding, the in-flight flag is down. *)
Definition idleWhenNothingInFlight (w : Studio) : Prop :=
  inflight w = [] → isGenerating (ui w) = false.

End StudioExtras.

(** ** src/client/src/store/dashboardStore.tsx *)

Module DashboardStore.

(** A grid coordinate: [y] is [Infinity] for a widget that goes to the
    bottom.  Columns, rows and sizes are whole numbers. *)
Inductive Coordinate := Row (n : Z) | Infinity.

(** [props?: Record<string, any>] as the list of its entries. *)
Definition Props := list (string * string).

Record WidgetLayout := {
  i : string;
  x : Z;
  y : Coordinate;
  w : Z;
  h : Z;
  type : string;
  props : option Props;
  static : option bool
}.

Record Tab := {
  id : string;
  name : string;
  widgets : list WidgetLayout;
  locked : option bool
}.

(** The [position] argument of [addWidget]. *)
Record Position := {
  pos_x : Z;
  pos_y : Coordinate;
  pos_w : option Z;
  pos_h : option Z
}.

(** An item of the layout handed to [updateLayout].  The grid library
    reports [i], [x], [y], [w] and [h]; the other properties of a
    [WidgetLayout] are [None] when the item does not have them. *)
Record LayoutItem := {
  l_i : string;
  l_x : Z;
  l_y : Coordinate;
  l_w : Z;
  l_h : Z;
  l_type : option string;
  l_props : option Props;
  l_static : option bool
}.

(** The state of the provider, with the number of calls of [uuidv4] made so
    far: the provider's functions are given the sequence of values that
    [uuidv4] returns. *)
Record Store := {
  tabs : list Tab;
  activeTabId : string;
  viewingTemplate : option string;
  uuidCalls : nat
}.

Definition setTabs (newTabs : list Tab) (st : Store) : Store :=
  {| tabs := newTabs; activeTabId := activeTabId st;
     viewingTemplate := viewingTemplate st; uuidCalls := uuidCalls st |}.

Definition setActiveTabId (k : string) (st : Store) : Store :=
  {| tabs := tabs st; activeTabId := k;
     viewingTemplate := viewingTemplate st; uuidCalls := uuidCalls st |}.

Definition withWidgets (ws : list WidgetLayout) (tab : Tab) : Tab :=
  {| id := id tab; name := name tab; widgets := ws; locked := locked tab |}.

Definition withName (n : string) (tab : Tab) : Tab :=
  {| id := id tab; name := n; widgets := widgets tab; locked := locked tab |}.

(** [addTab] (lines 110-118), called from the current render. *)
Definition addTab (uuidv4 : nat → string) (n : string) (st : Store) : Store :=
  let newTab := {| id := uuidv4 (uuidCalls st); name := n; widgets := [];
                   locked := None |} in
  {| tabs := tabs st ++ [newTab]; activeTabId := id newTab;
     viewingTemplate := viewingTemplate st; uuidCalls := S (uuidCalls st) |}.

(** [removeTab] (lines 152-158). *)
Definition removeTab (k : string) (st : Store) : Store :=
  let newTabs := filter (fun t => id t ≠ k) (tabs st) in
  let st' := setTabs newTabs st in
  match newTabs with
  | first :: _ =>
      if String.eqb (activeTabId st) k then setActiveTabId (id first) st' else st'
  | [] => st'
  end.

(** [renameTab] (lines 160-163). *)
Definition renameTab (k newName : string) (st : Store) : Store :=
  if negb (Js.truthy (Js.trim newName)) then st
  else setTabs ((fun t => if String.eqb (id t) k
                          then withName (Js.trim newName) t else t) <$> tabs st) st.

(** [reorderTabs] (lines 165-170): the array given to [setTabs].  An entry
    [None] is [undefined], which is what the first [splice] yields, and the
    second one inserts, when nothing is at [fromIndex].  The indices are
    positions of rendered tabs and so not negative. *)
Definition reorderTabs (fromIndex toIndex : nat) (ts : list Tab) : list (option Tab) :=
  let (removed, newTabs) := JsArray.spliceOut fromIndex (Some <$> ts) in
  JsArray.spliceIn toIndex (mjoin removed) newTabs.

(** The widget [addWidget] builds for [tab] (lines 238-246); [u] is the
    value of [uuidv4()]. *)
Definition newWidget (reg : WidgetRegistry.Registry)
    (u : string) (kind : string) (position : option Position) (tab : Tab)
    : WidgetLayout :=
  let def := WidgetRegistry.get reg kind in
  {| i := u;
     x := match position with
          | Some p => pos_x p
          | None => (Z.of_nat (length (widgets tab)) * 4) mod 12
          end;
     y := match position with
          | Some p => pos_y p
          | None => Infinity
          end;
     w := match position ≫= pos_w, def with
          | Some v, _ => v
          | None, WidgetRegistry.Value d => WidgetRegistry.defaultW d
          | None, _ => 4
          end;
     h := match position ≫= pos_h, def with
          | Some v, _ => v
          | None, WidgetRegistry.Value d => WidgetRegistry.defaultH d
          | None, _ => 4
          end;
     type := kind;
     props := Some [];
     static := None |}.

(** The updater of [addWidget] (lines 235-250): every tab with the id gets
    a widget of its own, each with the next value of [uuidv4]; [n] counts
    the calls. *)
Fixpoint addWidgetTo (uuidv4 : nat → string)
    (reg : WidgetRegistry.Registry)
    (tabId kind : string) (position : option Position) (n : nat)
    (ts : list Tab) : list Tab * nat :=
  match ts with
  | [] => ([], n)
  | tab :: rest =>
      if negb (String.eqb (id tab) tabId) then
        let (rest', n') := addWidgetTo uuidv4 reg tabId kind position n rest in
        (tab :: rest', n')
      else
        let added := newWidget reg (uuidv4 n) kind position tab in
        let (rest', n') := addWidgetTo uuidv4 reg tabId kind position (S n) rest in
        (withWidgets (widgets tab ++ [added]) tab :: rest', n')
  end.

Definition addWidget (uuidv4 : nat → string)
    (reg : WidgetRegistry.Registry)
    (tabId kind : string) (position : option Position) (st : Store) : Store :=
  let (newTabs, n) := addWidgetTo uuidv4 reg tabId kind position (uuidCalls st) (tabs st) in
  {| tabs := newTabs; activeTabId := activeTabId st;
     viewingTemplate := viewingTemplate st; uuidCalls := n |}.

(** [removeWidget] (lines 252-257). *)
Definition removeWidget (tabId widgetId : string) (st : Store) : Store :=
  setTabs ((fun tab => if negb (String.eqb (id tab) tabId) then tab
                       else withWidgets (filter (fun wl => i wl ≠ widgetId) (widgets tab)) tab)
             <$> tabs st) st.

(** [{ ...existing, ...l }]: the properties of the item replace those of
    the widget. *)
Definition merge (existing : WidgetLayout) (l : LayoutItem) : WidgetLayout :=
  {| i := l_i l; x := l_x l; y := l_y l; w := l_w l; h := l_h l;
     type := default (type existing) (l_type l);
     props := match l_props l with Some p => Some p | None => props existing end;
     static := match l_static l with Some b => Some b | None => static existing end |}.

(** [tab.widgets.find(w => w.i === l.i)] *)
Definition findWidget (k : string) (ws : list WidgetLayout) : option WidgetLayout :=
  list_find (fun wl => i wl = k) ws ≫= fun found => Some found.2.

(** The widgets [updateLayout] stores (lines 262-266): the items of the new
    layout that name a widget of the tab, merged into that widget; [None]
    is the [undefined] that [filter(Boolean)] drops. *)
Definition updatedWidgets (newLayout : list LayoutItem) (ws : list WidgetLayout)
    : list WidgetLayout :=
  omap (fun l => match findWidget (l_i l) ws with
                 | Some existing => Some (merge existing l)
                 | None => None
                 end) newLayout.

(** [updateLayout] (lines 259-270). *)
Definition updateLayout (tabId : string) (newLayout : list LayoutItem) (st : Store)
    : Store :=
  setTabs ((fun tab => if negb (String.eqb (id tab) tabId) then tab
                       else withWidgets (updatedWidgets newLayout (widgets tab)) tab)
             <$> tabs st) st.

(** A tab name that [renameTab] can have stored: not empty, no white space
    at either end. *)
Definition tidy (n : string) : Prop := n ≠ "" ∧ Js.trim n = n.

End DashboardStore.

(** ** Concrete inputs used by the examples below *)

Module Scenarios.
Import Js WidgetStudio.

Definition kpiWidget (title : string) (n : nat) : WidgetRegistry.WidgetDefinition :=
  {| WidgetRegistry.id := "kpi1";
     WidgetRegistry.name := title;
     WidgetRegistry.component := Compiled n;
     WidgetRegistry.defaultW := 6;
     WidgetRegistry.defaultH := 6;
     WidgetRegistry.description := None;
     WidgetRegistry.category := Some "Custom";
     WidgetRegistry.domain := Some "General";
     WidgetRegistry.isCertified := None;
     WidgetRegistry.configurationMode := None;
     WidgetRegistry.configSchema := None;
     WidgetRegistry.accessControl := None;
     WidgetRegistry.isExecutable := Some false |}.

(** A definition whose id is the name of the prototype accessor. *)
Definition protoWidget (title : string) (n : nat) : WidgetRegistry.WidgetDefinition :=
  {| WidgetRegistry.id := "__proto__";
     WidgetRegistry.name := title;
     WidgetRegistry.component := Compiled n;
     WidgetRegistry.defaultW := 6;
     WidgetRegistry.defaultH := 6;
     WidgetRegistry.description := None;
     WidgetRegistry.category := Some "Custom";
     WidgetRegistry.domain := Some "General";
     WidgetRegistry.isCertified := None;
     WidgetRegistry.configurationMode := None;
     WidgetRegistry.configSchema := None;
     WidgetRegistry.accessControl := None;
     WidgetRegistry.isExecutable := Some false |}.

(** A definition with an empty id. *)
Definition namelessWidget : WidgetRegistry.WidgetDefinition :=
  {| WidgetRegistry.id := "";
     WidgetRegistry.name := "Untitled";
     WidgetRegistry.component := Compiled 0;
     WidgetRegistry.defaultW := 6;
     WidgetRegistry.defaultH := 6;
     WidgetRegistry.description := None;
     WidgetRegistry.category := None;
     WidgetRegistry.domain := None;
     WidgetRegistry.isCertified := None;
     WidgetRegistry.configurationMode := None;
     WidgetRegistry.configSchema := None;
     WidgetRegistry.accessControl := None;
     WidgetRegistry.isExecutable := None |}.

Definition syntaxError (msg detail : string) : JsError :=
  {| err_name := "SyntaxError"; err_message := msg; err_detail := detail |}.

(** A browser whose Babel rejects every source with the given error. *)
Definition rejecting (e : JsError) : Browser :=
  {| Babel := Some (fun _ => inl e);
     createComponent := fun _ => inr (Some (Compiled 0)) |}.

(** A browser in which the Babel script did not load. *)
Definition withoutBabel : Browser :=
  {| Babel := None; createComponent := fun _ => inr (Some (Compiled 0)) |}.

Definition brokenHeader : string := "export default function W( {".
Definition brokenBody : string := "export default function W() { return <div>; }".
Definition brokenHeaderStill : string := "export default function W( { }".
Definition unexpectedToken : string := "Unexpected token (1:27)".
Definition unterminatedJsx : string := "Unterminated JSX contents (1:42)".

(** Babel as far as the examples need it: it rejects three particular
    sources, two of them with the same message, and passes every other one
    on. *)
Definition strictTransform (c : string) : JsError + string :=
  if String.eqb c brokenHeader then inl (syntaxError unexpectedToken "widget.tsx")
  else if String.eqb c brokenHeaderStill then inl (syntaxError unexpectedToken "widget.tsx")
  else if String.eqb c brokenBody then inl (syntaxError unterminatedJsx "widget.tsx")
  else inr c.

Definition strict : Browser :=
  {| Babel := Some strictTransform;
     createComponent := fun _ => inr (Some (Compiled 1)) |}.

(** What evaluating [Bogus()] throws when nothing of that name exists. *)
Definition bogus : Thrown :=
  ThrownError {| err_name := "ReferenceError"; err_message := "Bogus is not defined";
                 err_detail := "" |}.

(** The preview, about to throw, under the studio's boundary. *)
Definition failingPreview : ErrorBoundary.Fiber Retry :=
  ErrorBoundary.Boundary ErrorBoundary.initialState
    (Some (onError initialState)) (ErrorBoundary.Leaf (inl bogus)).

Definition failedPreview : ErrorBoundary.Fiber Retry :=
  ErrorBoundary.Boundary (ErrorBoundary.getDerivedStateFromError bogus)
    (Some (onError initialState)) (ErrorBoundary.Leaf (inl bogus)).

Definition alerts : ErrorBoundary.Fiber Retry := ErrorBoundary.Leaf (inr "alerts").
Definition inventory : ErrorBoundary.Fiber Retry := ErrorBoundary.Leaf (inr "inventory").

Definition failedToFetch : Thrown :=
  ThrownError {| err_name := "TypeError"; err_message := "Failed to fetch";
                 err_detail := "" |}.

(** The user types a broken source, it fails and the automatic correction
    goes out; while that request is outstanding the user edits the source by
    hand into another broken one, which is evaluated; much later the request
    fails. *)
Definition editDuringCorrection : list Event :=
  [ EditCode brokenHeader; Wait 500; DebounceFires;
    Wait 1000; RetryFires 0;
    Wait 200; EditCode brokenBody; Wait 500; DebounceFires;
    Wait 3000; Responds 0 (Rejected failedToFetch) ].

(** The user types a broken source, it fails, and the automatic correction
    ends in a network failure; the user then edits the source by hand, and
    the edited source fails with the message of the first failure. *)
Definition editKeepsError : list Event :=
  [ EditCode brokenHeader; Wait 500; DebounceFires;
    Wait 1000; RetryFires 0;
    Wait 2000; Responds 0 (Rejected failedToFetch);
    Wait 1000; EditCode brokenHeaderStill; Wait 500; DebounceFires ].

(** The studio with a source in the editor that Babel rejects, after the
    failed evaluation. *)
Definition showingError : State :=
  setPreviewError (Some unexpectedToken) (setCode brokenHeader initialState).

(** The user types a broken source, pauses for 600 ms, types on and pauses
    again: both evaluations fail, each before the first retry timer has run,
    and both timers run one second after they were set. *)
Definition typingWithPauses : list Event :=
  [ EditCode brokenHeader; Wait 500; DebounceFires;
    Wait 100; EditCode brokenBody; Wait 500; DebounceFires;
    Wait 400; RetryFires 0;
    Wait 600; RetryFires 0 ].

Definition overloaded : Response :=
  Answered false "Internal Server Error"
    {| data_code := None; explanation := None;
       detail := Some "model overloaded" |}.

(** The initial source is evaluated; then two prompts are sent with the
    Enter key, the second while the first is still outstanding, and the
    first request comes back with HTTP 500. *)
Definition twoPrompts : list Event :=
  [ Wait 500; DebounceFires;
    Wait 4000; EditPrompt "a bar chart"; PressEnter;
    Wait 1500; EditPrompt "make it blue"; PressEnter;
    Wait 800 ].

Definition twoPromptsFirstFails : list Event :=
  twoPrompts ++ [ Responds 0 overloaded ].

Definition welcome : Message :=
  {| role := assistant;
     content := "Welcome to the Widget Studio! Briefly describe the widget you want to build." |}.

Definition generated : Response :=
  Answered true "OK"
    {| data_code := Some "export default function Chart() { return null; }";
       explanation := Some "Here is the chart."; detail := None |}.

Definition ownEdit : string := "export default function Mine() { return null; }".

(** A prompt is sent; while the request is outstanding the user edits the
    source by hand and the edit is evaluated; then the answer arrives. *)
Definition editWhileGenerating : list Event :=
  [ Wait 500; DebounceFires;
    Wait 4000; EditPrompt "a bar chart"; PressEnter;
    Wait 300; EditCode ownEdit; Wait 500; DebounceFires;
    Wait 1500 ].

Definition staleAnswerArrives : list Event :=
  editWhileGenerating ++ [ Responds 0 generated ].

Definition generatedCode : string :=
  "export default function Chart() { return null; }".

End Scenarios.

(** ** Concrete inputs for the tray and the store *)

Module Samples.
Import WidgetRegistry.

Definition widget (i title : string) (cat dom : option string)
    (certified : option bool) (access : option bool) : WidgetDefinition :=
  {| id := i; name := title; component := BuiltinWidget title;
     defaultW := 4; defaultH := 4; description := None;
     category := cat; domain := dom; isCertified := certified;
     configurationMode := None; configSchema := None;
     accessControl := Some {| mockHasAccess := access |};
     isExecutable := None |}.

Definition alerts : WidgetDefinition :=
  widget "alerts" "Problem Alerts" (Some "Monitoring") (Some "Supply Chain")
    (Some true) (Some true).

Definition forecast : WidgetDefinition :=
  widget "demand_forecast" "Demand Forecast" (Some "Planning") (Some "Planning")
    (Some true) (Some false).

Definition custom : WidgetDefinition :=
  widget "kpi1" "Throughput" (Some "Custom") None None None.

Definition catalogue : list WidgetDefinition := [alerts; forecast; custom].

(** The scores as /api/widgets/popularity has returned them. *)
Definition scores : gmap string Z :=
  {[ "alerts" := 12%Z; "kpi1" := 40%Z ]}.

Definition filters (q : string) (group : option string) : WidgetTray.Filters :=
  {| WidgetTray.searchQuery := q; WidgetTray.selectedGroup := group;
     WidgetTray.grouping := WidgetTray.ByCategory;
     WidgetTray.showCertifiedOnly := true;
     WidgetTray.accessFilter := WidgetTray.AllWidgets |}.

End Samples.

Module StudioSamples.
Import Js WidgetStudio StudioExtras.

(** A browser whose Babel accepts every source, with a factory that always
    returns a component. *)
Definition accepting : Browser :=
  {| Babel := Some (fun c => inr c);
     createComponent := fun _ => inr (Some (Compiled 1)) |}.

(** A browser whose Babel rejects every source. *)
Definition refusing : Browser :=
  {| Babel := Some (fun _ => inl {| err_name := "SyntaxError";
                                    err_message := "Unexpected token (1:1)";
                                    err_detail := "widget.tsx" |});
     createComponent := fun _ => inr (Some (Compiled 1)) |}.

(** What rendering a widget that reads a field of undefined throws. *)
Definition renderError : Thrown :=
  ThrownError {| err_name := "TypeError";
                 err_message := "Cannot read properties of undefined (reading 'map')";
                 err_detail := "" |}.

Definition offline : Thrown :=
  ThrownError {| err_name := "TypeError"; err_message := "Failed to fetch";
                 err_detail := "" |}.

Definition repaired : string :=
  "export default function MyWidget() { return <div>ok</div>; }".

(** The first source is evaluated. *)
Definition firstEvaluation : list Event := [ Wait 500; DebounceFires ].

(** The first source is evaluated; the user sends a prompt and the request
    fails. *)
Definition promptFails : list Event :=
  [ Wait 500; DebounceFires;
    EditPrompt "a gauge"; PressEnter; Wait 800; Responds 0 (Rejected offline) ].

(** The first source compiles and throws when it is rendered; the automatic
    correction is answered with a new source, whose debounce timer is due. *)
Definition renderFailureRepaired : list Event :=
  [ Wait 500; DebounceFires; PreviewThrows renderError;
    Wait 1000; RetryFires 0;
    Wait 3000;
    Responds 0 (Answered true "OK"
                  {| data_code := Some repaired; explanation := None;
                     detail := None |});
    Wait 500 ].

(** A row of /api/widgets/custom with most optional fields missing. *)
Definition savedGauge : SavedWidget :=
  {| sw_id := "custom_7f3a"; sw_name := "Gauge"; sw_description := None;
     sw_category := None; sw_domain := Some "Logistics";
     sw_tsx_code := repaired; sw_data_source_type := Some DsSql;
     sw_data_source := Some "select 1"; sw_default_w := Some 0%Z;
     sw_default_h := Some 4%Z |}.

Definition sqlSettings : Settings :=
  {| widgetName := "Gauge"; widgetDescription := ""; widgetCategory := "Custom";
     widgetDomain := "General"; isExecutable := false; dataSourceType := DsSql;
     dataSource := "select 1"; dataSourceSchema := Some "{}";
     defaultW := 6; defaultH := 6; editingId := None |}.

Definition failedBefore : TestStatus :=
  {| isTestingDataSource := false; dataSourceTestError := Some "timeout" |}.

End StudioSamples.

Module StoreSamples.
Import DashboardStore.

Definition uuidv4 (n : nat) : string :=
  match n with
  | 0 => "3b241101-e2bb-4255-8caf-4136c566a962"
  | 1 => "9f8b7c1e-1a2b-4c3d-8e4f-5a6b7c8d9e0f"
  | _ => "c0ffee00-0000-4000-8000-000000000000"
  end.

Definition placed (k kind : string) (col row width height : Z) : WidgetLayout :=
  {| i := k; x := col; y := Row row; w := width; h := height; type := kind;
     props := None; static := None |}.

Definition overview : Tab :=
  {| id := "default-1"; name := "Overview";
     widgets := [ placed "w1" "alerts" 0 0 3 6; placed "w2" "inventory" 3 0 6 6 ];
     locked := None |}.

Definition production : Tab :=
  {| id := "tab-2"; name := "Production";
     widgets := [ placed "p1" "gantt" 0 0 8 6 ]; locked := Some true |}.

Definition planning : Tab :=
  {| id := "tab-3"; name := "Planning"; widgets := []; locked := None |}.

Definition store : Store :=
  {| tabs := [overview; production; planning]; activeTabId := "tab-2";
     viewingTemplate := None; uuidCalls := 0 |}.

(** What the grid reports after the second widget of the overview was
    dragged to the left and the first one was pushed down. *)
Definition moved (k : string) (col row width height : Z) : LayoutItem :=
  {| l_i := k; l_x := col; l_y := Row row; l_w := width; l_h := height;
     l_type := None; l_props := None; l_static := None |}.

Definition dragged : list LayoutItem :=
  [ moved "w2" 0 0 6 6; moved "w1" 0 6 3 6; moved "__dropping-elem__" 6 0 1 1 ].

End StoreSamples.

(** * Properties *)

(** ** The registry *)

Section RegistryFacts.
Import WidgetRegistry.

Lemma keyed_empty : keyed (own widgetRegistry).
Proof. intros k w H. simpl in H. by rewrite lookup_empty in H. Qed.

Lemma registerWidget_own def (reg : Registry) :
  id def ≠ "__proto__" →
  registerWidget def reg = {| own := <[id def := def]> (own reg); proto := proto reg |}.
Proof.
  intros Hid. unfold registerWidget. apply String.eqb_neq in Hid. by rewrite Hid.
Qed.

Lemma registerWidget_proto def (reg : Registry) :
  id def = "__proto__" →
  own reg !! "__proto__" = None →
  registerWidget def reg = {| own := own reg; proto := Some def |}.
Proof.
  intros Hid Hown. unfold registerWidget. apply String.eqb_eq in Hid.
  by rewrite Hid, Hown.
Qed.

Lemma keyed_registerWidget def (reg : Registry) :
  keyed (own reg) → keyed (own (registerWidget def reg)).
Proof.
  intros Hk. unfold registerWidget.
  destruct (String.eqb (id def) "__proto__"), (own reg !! "__proto__");
    simpl; try done.
  all: intros k entry; destruct (decide (id def = k)) as [<- | Hne];
    [ rewrite lookup_insert_eq; by intros [= <-]
    | rewrite lookup_insert_ne by done; apply Hk ].
Qed.

Lemma keyed_foldl defs (reg : Registry) :
  keyed (own reg) →
  keyed (own (foldl (fun r def => registerWidget def r) reg defs)).
Proof.
  revert reg. induction defs as [| def defs IH]; intros reg Hk; simpl.
  - done.
  - apply IH. by apply keyed_registerWidget.
Qed.

Lemma keyed_registerAll defs : keyed (own (registerAll defs)).
Proof. apply keyed_foldl, keyed_empty. Qed.

(** In a registry whose entries sit under their own ids, no entry stored
    under another key carries the id [i]. *)
Lemma entries_elsewhere (i : string) (reg : gmap string WidgetDefinition) :
  keyed reg →
  filter (fun w => id w = i) (map_to_list (delete i reg)).*2 = [].
Proof.
  intros Hk. apply elem_of_nil_inv. intros w Hw.
  apply list_elem_of_filter in Hw as [Hid Hw].
  apply list_elem_of_fmap in Hw as [[k w'] [-> Hin]].
  apply elem_of_map_to_list in Hin. simpl in Hid.
  destruct (decide (k = i)) as [-> | Hne].
  - by rewrite lookup_delete_eq in Hin.
  - rewrite lookup_delete_ne in Hin by done. apply Hk in Hin. congruence.
Qed.

Lemma entriesFor_registerWidget def (reg : Registry) :
  keyed (own reg) →
  id def ≠ "__proto__" →
  entriesFor (id def) (own (registerWidget def reg)) = [def].
Proof.
  intros Hk Hid. rewrite registerWidget_own by done. simpl.
  unfold entriesFor, getAvailableWidgets.
  apply Permutation_singleton_r.
  rewrite <- (insert_delete_eq (own reg)).
  rewrite map_to_list_insert by apply lookup_delete_eq.
  rewrite fmap_cons. simpl.
  rewrite filter_cons_True by done.
  by rewrite entries_elsewhere.
Qed.

(** No registration gives the registry an own property [__proto__]. *)
Lemma registerWidget_no_own_proto def (reg : Registry) :
  own reg !! "__proto__" = None →
  own (registerWidget def reg) !! "__proto__" = None.
Proof.
  intros Hnone. destruct (decide (id def = "__proto__")) as [Hid | Hid].
  - by rewrite registerWidget_proto.
  - rewrite registerWidget_own by done. simpl. by rewrite lookup_insert_ne.
Qed.

Lemma registerAll_no_own_proto defs : own (registerAll defs) !! "__proto__" = None.
Proof.
  unfold registerAll. induction defs as [| d defs IH] using rev_ind; [done |].
  rewrite foldl_app. simpl. by apply registerWidget_no_own_proto.
Qed.

Lemma get_registerWidget def (reg : Registry) :
  get (registerWidget def reg) (id def) = Value def.
Proof.
  unfold registerWidget, get.
  destruct (String.eqb (id def) "__proto__") eqn:Hid;
    destruct (own reg !! "__proto__") eqn:Hown; simpl;
    rewrite ?lookup_insert_eq; try done.
  apply String.eqb_eq in Hid. rewrite Hid, Hown. done.
Qed.

End RegistryFacts.

Section RegistryClaims.
Import WidgetRegistry.

(** C6 fails on the code for one id.  Registering the id [__proto__]
    twice, after any registrations, leaves no entry for that id: the list
    of available widgets is what it was before the two calls, although a
    read under the id gives the second definition. *)
Theorem republish_under_proto (defs : list WidgetDefinition) :
  let first := Scenarios.protoWidget "Throughput" 1 in
  let second := Scenarios.protoWidget "Throughput by line" 2 in
  let r0 := registerAll defs in
  let r2 := registerWidget second (registerWidget first r0) in
  entriesFor "__proto__" (own r2) = []
  ∧ getAvailableWidgets (own r2) = getAvailableWidgets (own r0)
  ∧ get r2 "__proto__" = Value second.
Proof.
  intros first second r0 r2. subst r2 r0.
  rewrite (registerWidget_proto first (registerAll defs) eq_refl
             (registerAll_no_own_proto defs)).
  rewrite (registerWidget_proto second
             {| own := own (registerAll defs); proto := Some first |} eq_refl
             (registerAll_no_own_proto defs)).
  simpl. split; [| split; [done |]].
  - apply elem_of_nil_inv. intros w Hw.
    apply list_elem_of_filter in Hw as [Hid Hw].
    apply list_elem_of_fmap in Hw as [[k w'] [-> Hin]].
    apply elem_of_map_to_list in Hin. simpl in Hid.
    pose proof (keyed_registerAll defs k w' Hin) as Hk.
    pose proof (registerAll_no_own_proto defs) as Hnone.
    congruence.
  - unfold get. simpl. by rewrite registerAll_no_own_proto.
Qed.

(** C5, as the code has it.  Neither the registry nor the publish handler
    validates anything: [registerWidget] stores every definition under its
    id, whatever the id, and [handlePublish] sends the current source to the
    persistence service whatever the preview error says about it. *)
Theorem publish_path_validates_nothing :
  (∀ def (reg : Registry),
      get (registerWidget def reg) (id def) = Value def)
  ∧ (∀ env err,
      WidgetStudio.handlePublish (WidgetStudio.setPreviewError err env)
        = WidgetStudio.handlePublish env
      ∧ WidgetStudio.tsx_code (WidgetStudio.body (WidgetStudio.handlePublish env))
        = WidgetStudio.code env).
Proof.
  split.
  - intros def reg. apply get_registerWidget.
  - intros env err. split; reflexivity.
Qed.

(** C5 fails as stated: a definition with an empty id is not rejected, the
    call stores it and so changes the registry; and with a source in the
    editor that Babel rejects, the publish handler still sends that source
    to the persistence service. *)
Lemma publish_is_not_rejected :
  (get (registerWidget Scenarios.namelessWidget widgetRegistry) ""
     = Value Scenarios.namelessWidget
   ∧ registerWidget Scenarios.namelessWidget widgetRegistry ≠ widgetRegistry)
  ∧ (WidgetStudio.compileFailure Scenarios.strict
       (WidgetStudio.code Scenarios.showingError)
       (Scenarios.syntaxError Scenarios.unexpectedToken "widget.tsx")
     ∧ WidgetStudio.method (WidgetStudio.handlePublish Scenarios.showingError)
       = WidgetStudio.POST
     ∧ WidgetStudio.tsx_code
         (WidgetStudio.body (WidgetStudio.handlePublish Scenarios.showingError))
       = Scenarios.brokenHeader).
Proof.
  split; [split | split; [| split]].
  - reflexivity.
  - intros Heq.
    assert (H : own (registerWidget Scenarios.namelessWidget widgetRegistry) !! ""
                = own widgetRegistry !! "") by (by rewrite Heq).
    unfold registerWidget, widgetRegistry in H. simpl in H.
    rewrite lookup_insert_eq, lookup_empty in H. discriminate.
  - exists Scenarios.strictTransform. split; [reflexivity | by left].
  - reflexivity.
  - reflexivity.
Qed.

End RegistryClaims.

(** ** White space and blank source *)

Section Whitespace.
Import Js.

Lemma trimEnd_empty (s : string) :
  trimEnd s = "" ↔ all_whitespace s = true.
Proof.
  induction s as [| c rest IH]; simpl.
  - done.
  - destruct (trimEnd rest) eqn:Hrest.
    + destruct (is_whitespace c); simpl.
      * split; intros _; [by apply IH | done].
      * split; discriminate.
    + split; [discriminate |].
      intros H. apply andb_true_iff in H as [_ H].
      apply IH in H. discriminate.
Qed.

Lemma all_whitespace_trimStart (s : string) :
  all_whitespace (trimStart s) = all_whitespace s.
Proof.
  induction s as [| c rest IH]; simpl; [done |].
  destruct (is_whitespace c) eqn:Hc; simpl; [done |].
  by rewrite Hc.
Qed.

Lemma trim_empty (s : string) : trim s = "" ↔ all_whitespace s = true.
Proof.
  unfold trim. rewrite trimEnd_empty. by rewrite all_whitespace_trimStart.
Qed.

(** The test [!code || code.trim() === ''] holds exactly for the sources
    made of white space only, the empty one included. *)
Lemma blank_iff (c : string) :
  WidgetStudio.blank c = true ↔ all_whitespace c = true.
Proof.
  unfold WidgetStudio.blank. destruct c as [| a rest].
  - done.
  - change (negb (truthy (String a rest))) with false. simpl orb.
    rewrite <- trim_empty. apply String.eqb_eq.
Qed.

End Whitespace.

(** ** The compile-and-evaluate step *)

Section EvaluateCode.
Import Js WidgetStudio.

Variable B : Browser.

(** What the step does, in full, when the source does not yield a
    component. *)
Lemma evaluateCode_rejected (env : State) (h : Heap) err :
  blank (code env) = false →
  compileFailure B (code env) err →
  evaluateCode B env h =
    if differs (previewError env) (errorText err) then
      ({| hooks := setPreviewComponent None
                     (setPreviewError (Some (errorText err))
                        (setPreviewError None (hooks h)));
          scheduled := if isGenerating env then scheduled h
                       else scheduled h ++ [retryFor (errorText err) env] |},
       inr tt)
    else
      ({| hooks := setPreviewError None (hooks h); scheduled := scheduled h |},
       inr tt).
Proof.
  intros Hblank (transform & HB & Hfail).
  unfold evaluateCode, try_catch, bind, set, ret, throw, call,
    setTimeout_handleGenerate.
  rewrite HB. simpl. rewrite Hblank.
  destruct Hfail as [Herr | (js & Hjs & Herr)].
  - rewrite Herr. simpl. fold (errorText err).
    destruct (differs (previewError env) (errorText err)); simpl; [| done].
    destruct (isGenerating env); done.
  - rewrite Hjs. simpl. rewrite Herr. simpl. fold (errorText err).
    destruct (differs (previewError env) (errorText err)); simpl; [| done].
    destruct (isGenerating env); done.
Qed.

(** What the step does for blank source when Babel is loaded. *)
Lemma evaluateCode_blank (env : State) (h : Heap) transform :
  Babel B = Some transform →
  blank (code env) = true →
  evaluateCode B env h =
    ({| hooks := setPreviewComponent (Some PreviewPlaceholder)
                   (setPreviewError None (hooks h));
        scheduled := scheduled h |}, inr tt).
Proof.
  intros HB Hblank.
  unfold evaluateCode, try_catch, bind, set, ret, throw, call.
  rewrite HB. simpl. by rewrite Hblank.
Qed.

End EvaluateCode.

Section EvaluateClaims.
Import Js WidgetStudio.

(** C10, as the code has it.  When the Babel script is loaded, a source
    that is empty or made of white space only gives the built-in
    placeholder component, no preview error and no new timer, and the step
    returns normally; run by the debounce timer, it leaves the pending
    retries and the outstanding requests as they were. *)
Theorem blank_source_placeholder (B : Browser) (env : State) transform :
  Babel B = Some transform →
  all_whitespace (code env) = true →
  (∀ h, ∃ h',
      evaluateCode B env h = (h', inr tt)
      ∧ previewComponent (hooks h') = Some PreviewPlaceholder
      ∧ previewError (hooks h') = None
      ∧ scheduled h' = scheduled h)
  ∧ (∀ w due, debounce w = Some (due, env) → (due ≤ now w)%nat →
      ∃ w', step B w DebounceFires = Some w'
        ∧ previewComponent (ui w') = Some PreviewPlaceholder
        ∧ previewError (ui w') = None
        ∧ retries w' = retries w
        ∧ inflight w' = inflight w).
Proof.
  intros HB Hws. apply blank_iff in Hws.
  split.
  - intros h. eexists. split; [by apply (evaluateCode_blank B env h transform) |].
    done.
  - intros w due Hd Hdue. unfold step. rewrite Hd.
    apply Nat.leb_le in Hdue. rewrite Hdue.
    rewrite (evaluateCode_blank B env _ transform HB Hws).
    eexists. split; [reflexivity |]. simpl.
    by rewrite !app_nil_r.
Qed.

Lemma blank_source_with_babel :
  let env := setCode "  " initialState in
  ∃ h', evaluateCode Scenarios.strict env {| hooks := env; scheduled := [] |}
          = (h', inr tt)
        ∧ previewComponent (hooks h') = Some PreviewPlaceholder
        ∧ previewError (hooks h') = None
        ∧ scheduled h' = [].
Proof.
  intros env.
  destruct (blank_source_placeholder Scenarios.strict env
              Scenarios.strictTransform eq_refl eq_refl) as [Hfun _].
  exact (Hfun {| hooks := env; scheduled := [] |}).
Defined.

(** C10 fails as stated when the Babel script is missing: the check for
    Babel comes first, so even a blank source is reported as an error and
    an automatic retry is scheduled. *)
Lemma blank_source_without_babel :
  let env := setCode "  " initialState in
  let h' := (evaluateCode Scenarios.withoutBabel env
               {| hooks := env; scheduled := [] |}).1 in
  all_whitespace (code env) = true
  ∧ previewError (hooks h') = Some (err_message babelMissing)
  ∧ previewComponent (hooks h') = None
  ∧ scheduled h' = [retryFor (err_message babelMissing) env].
Proof. repeat split. Qed.

(** C1, as the code has it.  When a non-blank source does not yield a
    component (Babel rejects it, or the factory built from it throws, with
    an error object), the step returns normally: nothing is thrown past it.
    If the message of the error differs from the preview error seen by the
    render that scheduled the step, that message becomes the preview error
    and the preview component is cleared.  The recorded state is the message
    text alone. *)
Theorem compile_error_recorded (B : Browser) (env : State) (h : Heap) err :
  blank (code env) = false →
  compileFailure B (code env) err →
  ∃ h', evaluateCode B env h = (h', inr tt)
        ∧ (previewError env ≠ Some (errorText err) →
           previewError (hooks h') = Some (errorText err)
           ∧ previewComponent (hooks h') = None).
Proof.
  intros Hblank Hfail.
  rewrite (evaluateCode_rejected B env h err Hblank Hfail).
  destruct (differs (previewError env) (errorText err)) eqn:Hd.
  - eexists. split; [reflexivity |]. done.
  - eexists. split; [reflexivity |]. intros Hne. exfalso. apply Hne.
    unfold differs in Hd. destruct (previewError env) as [q |]; [| done].
    apply negb_false_iff, String.eqb_eq in Hd. by subst.
Qed.

Lemma compile_error_recorded_example :
  let err := Scenarios.syntaxError Scenarios.unexpectedToken "widget.tsx" in
  let env := setCode Scenarios.brokenHeader initialState in
  ∃ h', evaluateCode Scenarios.strict env {| hooks := env; scheduled := [] |}
          = (h', inr tt)
        ∧ (previewError env ≠ Some (errorText err) →
           previewError (hooks h') = Some (errorText err)
           ∧ previewComponent (hooks h') = None).
Proof.
  intros err env.
  exact (compile_error_recorded Scenarios.strict env
           {| hooks := env; scheduled := [] |} err eq_refl
           (ex_intro _ Scenarios.strictTransform (conj eq_refl (or_introl eq_refl)))).
Defined.

(** C1 fails as stated.  First, a source that Babel rejects with the
    message already shown: the step clears the preview error and records
    nothing.  Second, two rejections that differ only in the diagnostic
    carried besides the message leave the same state, so no diagnostic is
    recorded. *)
Lemma compile_error_not_recorded :
  let shown := "Unexpected token (1:27)" in
  let env := setPreviewError (Some shown)
               (setCode "export default function W( {" initialState) in
  let start := {| hooks := env; scheduled := [] |} in
  let e1 := Scenarios.syntaxError shown "widget.tsx (1:27) code frame A" in
  let e2 := Scenarios.syntaxError shown "widget.tsx (1:27) code frame B" in
  (blank (code env) = false
   ∧ previewError (hooks (evaluateCode (Scenarios.rejecting e1) env start).1) = None
   ∧ scheduled (evaluateCode (Scenarios.rejecting e1) env start).1 = [])
  ∧ (e1 ≠ e2
     ∧ evaluateCode (Scenarios.rejecting e1) initialState start
       = evaluateCode (Scenarios.rejecting e2) initialState start).
Proof.
  repeat split. intros H. discriminate H.
Qed.

End EvaluateClaims.

(** ** The generation handler *)

Section GenerateClaims.
Import Js WidgetStudio.

(** C8, as the code has it.  [env] is the render whose [handleGenerate] is
    called and [s] the state when it is called: the same for a submitted
    prompt, while a correction is called by a timer from the render that
    set the timer.  A submitted prompt appends a user turn to the turns of
    its render and posts the prompt, the non-system turns of that render,
    the preview error of that render (or null) and its source.  A
    correction triggered by an error appends a system turn that quotes the
    error to the current turns and posts the prompt text of its render (not
    what has been typed into the prompt box since) or, when that is empty,
    a fixed request to fix the error, the non-system turns of its render,
    the error, and the source of its render.  Neither the source nor the
    prompt is ever null. *)
Theorem handleGenerate_request :
  (∀ env s, truthy (prompt env) = true →
     ∃ s' p, handleGenerate_send None env s = (s', Some p)
       ∧ messages s' = messages env ++ [ {| role := user; content := prompt env |} ]
       ∧ req_prompt (request p) = Some (prompt env)
       ∧ history (request p) = filter (fun m => negb (is_system m)) (messages env)
       ∧ error_log (request p) = previewError env
       ∧ current_code (request p) = Some (code env))
  ∧ (∀ err env s, truthy err = true →
     ∃ s' p, handleGenerate_send (Some err) env s = (s', Some p)
       ∧ messages s' = messages s ++ [retryNotice err]
       ∧ req_prompt (request p) = Some (or_else (prompt env) fixPrompt)
       ∧ history (request p) = filter (fun m => negb (is_system m)) (messages env)
       ∧ error_log (request p) = Some err
       ∧ current_code (request p) = Some (code env)).
Proof.
  split.
  - intros env s Hp. unfold handleGenerate_send. rewrite Hp. simpl.
    do 2 eexists. split; [reflexivity |]. simpl.
    unfold or_else. rewrite Hp. done.
  - intros err env s Herr. unfold handleGenerate_send. simpl. rewrite Herr.
    rewrite andb_false_r. simpl.
    do 2 eexists. split; [reflexivity |]. simpl.
    unfold opt_or_opt. simpl. rewrite Herr. done.
Qed.

Lemma handleGenerate_request_example :
  let env := setPrompt "a bar chart of completed units" initialState in
  let err := Scenarios.unexpectedToken in
  let typedSince := setPrompt "make it red" initialState in
  (∃ s' p, handleGenerate_send None env env = (s', Some p)
    ∧ messages s' = messages env ++ [ {| role := user; content := prompt env |} ]
    ∧ req_prompt (request p) = Some (prompt env)
    ∧ history (request p) = filter (fun m => negb (is_system m)) (messages env)
    ∧ error_log (request p) = previewError env
    ∧ current_code (request p) = Some (code env))
  ∧ (∃ s' p, handleGenerate_send (Some err) initialState typedSince = (s', Some p)
    ∧ messages s' = messages typedSince ++ [retryNotice err]
    ∧ req_prompt (request p) = Some (or_else (prompt initialState) fixPrompt)
    ∧ history (request p)
      = filter (fun m => negb (is_system m)) (messages initialState)
    ∧ error_log (request p) = Some err
    ∧ current_code (request p) = Some (code initialState)).
Proof.
  intros env err typedSince.
  destruct handleGenerate_request as [Huser Hauto].
  split.
  - exact (Huser env env eq_refl).
  - exact (Hauto err initialState typedSince eq_refl).
Defined.

(** C8 fails as stated: the request of a submitted prompt carries the
    current source, not null, and the request of an automatic correction
    carries a prompt text, not null. *)
Lemma generate_request_never_null :
  let env := setPrompt "a bar chart of completed units" initialState in
  (current_code ∘ request) <$> (handleGenerate_send None env env).2
    = Some (Some initialCode)
  ∧ (req_prompt ∘ request) <$>
      (handleGenerate_send (Some "Unexpected token (1:27)") initialState initialState).2
    = Some (Some fixPrompt).
Proof. split; reflexivity. Qed.

(** The render in which an answer with a new source is applied: the
    in-flight flag is down and the preview error is what it was. *)
Lemma answer_schedules_evaluation (B : Browser) (w : Studio) (k : nat)
    (p : Pending) statusText data c :
  inflight w !! k = Some p →
  data_code data = Some c →
  truthy c = true →
  code (ui w) ≠ c →
  ∃ w' env, step B w (Responds k (Answered true statusText data)) = Some w'
    ∧ debounce w' = Some (now w + 500, env)
    ∧ code env = c
    ∧ previewError env = previewError (ui w)
    ∧ isGenerating env = false.
Proof.
  intros Hp Hc Ht Hne. simpl. rewrite Hp.
  unfold handleGenerate_receive, try_finally, try_catch, bind, set, ret.
  simpl. rewrite Hc. simpl. rewrite Ht.
  apply String.eqb_neq in Hne.
  destruct (truthy_opt (autoRetryError p)); simpl;
    do 2 eexists; (split; [reflexivity |]); simpl; rewrite Hne; done.
Qed.

(** C9, as the code has it.  There is no attempt counter; what a failed
    evaluation consults is the preview error and the in-flight flag of the
    render that scheduled it.  Submitting a prompt clears the preview error,
    and the answer that brings a new source schedules its evaluation in a
    render with the in-flight flag down and the preview error unchanged.  A
    manual edit schedules the evaluation of the edited source in a render
    with the preview error and the in-flight flag as they were.  A source
    that does not yield a component then gets exactly one retry timer when
    the message of its error differs from that preview error and no
    generation was in flight in that render, and none otherwise; an error
    caught by the boundary gets one when no generation was in flight in the
    current render. *)
Theorem retry_after_intervention (B : Browser) :
  (∀ env s, truthy (prompt env) = true →
     previewError (handleGenerate_send None env s).1 = None)
  ∧ (∀ w k p statusText data c,
       inflight w !! k = Some p →
       data_code data = Some c →
       truthy c = true →
       code (ui w) ≠ c →
       ∃ w' env, step B w (Responds k (Answered true statusText data)) = Some w'
         ∧ debounce w' = Some (now w + 500, env)
         ∧ code env = c
         ∧ previewError env = previewError (ui w)
         ∧ isGenerating env = false)
  ∧ (∀ w c, code (ui w) ≠ c →
       ∃ w' env, step B w (EditCode c) = Some w'
         ∧ debounce w' = Some (now w + 500, env)
         ∧ code env = c
         ∧ previewError env = previewError (ui w)
         ∧ isGenerating env = isGenerating (ui w))
  ∧ (∀ env h err,
       blank (code env) = false →
       compileFailure B (code env) err →
       scheduled (evaluateCode B env h).1 =
         scheduled h ++
         (if differs (previewError env) (errorText err) && negb (isGenerating env)
          then [retryFor (errorText err) env] else []))
  ∧ (∀ env e,
       onError env e =
         if isGenerating env then []
         else [ {| retry_delay := 1000; retry_arg := CaughtError e;
                   retry_closure := env |} ]).
Proof.
  split; [| split; [| split; [| split]]].
  - intros env s Hp. unfold handleGenerate_send. rewrite Hp. done.
  - intros w k p statusText data c. apply answer_schedules_evaluation.
  - intros w c Hne. apply String.eqb_neq in Hne.
    do 2 eexists. split; [reflexivity |]. simpl. rewrite Hne. done.
  - intros env h err Hblank Hfail.
    rewrite (evaluateCode_rejected B env h err Hblank Hfail).
    destruct (differs _ _); simpl; [| by rewrite app_nil_r].
    destruct (isGenerating env); simpl; [by rewrite app_nil_r | done].
  - intros env e. unfold onError. by destruct (isGenerating env).
Qed.

Lemma retry_after_intervention_example :
  let asked := setPrompt "make the title bold" initialState in
  let env := setCode Scenarios.brokenHeader initialState in
  let err := Scenarios.syntaxError Scenarios.unexpectedToken "widget.tsx" in
  previewError (handleGenerate_send None asked asked).1 = None
  ∧ (∃ w' env', step Scenarios.strict (mount initialState)
                  (EditCode Scenarios.brokenHeader) = Some w'
       ∧ debounce w' = Some (now (mount initialState) + 500, env')
       ∧ code env' = Scenarios.brokenHeader
       ∧ previewError env' = previewError (ui (mount initialState))
       ∧ isGenerating env' = isGenerating (ui (mount initialState)))
  ∧ scheduled (evaluateCode Scenarios.strict env {| hooks := env; scheduled := [] |}).1
    = [] ++
      (if differs (previewError env) (errorText err) && negb (isGenerating env)
       then [retryFor (errorText err) env] else []).
Proof.
  intros asked env err.
  destruct (retry_after_intervention Scenarios.strict)
    as (Hprompt & _ & Hedit & Heval & _).
  split; [| split].
  - exact (Hprompt asked asked eq_refl).
  - apply (Hedit (mount initialState) Scenarios.brokenHeader).
    vm_compute. discriminate.
  - exact (Heval env {| hooks := env; scheduled := [] |} err eq_refl
             (ex_intro _ Scenarios.strictTransform
                (conj eq_refl (or_introl eq_refl)))).
Defined.

End GenerateClaims.

(** ** The component over time *)

Section StudioClaims.
Import Js WidgetStudio.

Variable B : Browser.

Lemma debounceCurrent_commit (w : Studio) s' b timers sent :
  debounceCurrent w → debounceCurrent (commit w s' b timers sent).
Proof.
  intros Hw due env. unfold commit. simpl.
  destruct (String.eqb (code (ui w)) (code s')) eqn:Hc.
  - apply String.eqb_eq in Hc. rewrite <- Hc. apply Hw.
  - by intros [= _ <-].
Qed.

Lemma debounceCurrent_cleared (w : Studio) rs fs s' b timers sent :
  code (ui w) = code s' →
  debounceCurrent
    (commit {| now := now w; ui := ui w; debounce := None; retries := rs;
               inflight := fs; boundary := boundary w |} s' b timers sent).
Proof.
  intros Hc. apply debounceCurrent_commit. by intros due env.
Qed.

Lemma debounceCurrent_same (w : Studio) rs fs :
  debounceCurrent w →
  debounceCurrent {| now := now w; ui := ui w; debounce := debounce w;
                     retries := rs; inflight := fs; boundary := boundary w |}.
Proof. intros Hw due env. apply Hw. Qed.

Lemma debounceCurrent_step (w w' : Studio) (ev : Event) :
  debounceCurrent w → step B w ev = Some w' → debounceCurrent w'.
Proof.
  intros Hw Hstep. destruct ev; simpl in Hstep.
  - destruct (forallb _ _); [| done]. injection Hstep as <-.
    intros due env. apply Hw.
  - injection Hstep as <-. by apply debounceCurrent_commit.
  - injection Hstep as <-. by apply debounceCurrent_commit.
  - injection Hstep as <-. by apply debounceCurrent_commit.
  - injection Hstep as <-. unfold callHandleGenerate.
    destruct (handleGenerate_send _ _ _). by apply debounceCurrent_commit.
  - destruct (_ || _); [done |]. injection Hstep as <-.
    unfold callHandleGenerate.
    destruct (handleGenerate_send _ _ _). by apply debounceCurrent_commit.
  - destruct (debounce w) as [[due env] |]; [| done].
    destruct (due <=? now w)%nat; [| done].
    destruct (evaluateCode B env _) as [h r]. injection Hstep as <-.
    apply debounceCurrent_commit. by intros due' env'.
  - destruct (retries w !! k) as [[due r] |]; [| done].
    destruct (due <=? now w)%nat; [| done].
    destruct (retryArgument _) as [e | msg]; injection Hstep as <-.
    + by apply debounceCurrent_same.
    + unfold callHandleGenerate. simpl.
      destruct (handleGenerate_send _ _ _).
      apply debounceCurrent_commit. by apply debounceCurrent_same.
  - destruct (inflight w !! k) as [p |]; [| done].
    destruct (handleGenerate_receive p r _) as [h res]. injection Hstep as <-.
    apply debounceCurrent_commit. by apply debounceCurrent_same.
  - destruct (boundary w) as [b |]; [| done].
    destruct (ErrorBoundary.hasError b); [done |].
    injection Hstep as <-. by apply debounceCurrent_commit.
  - destruct (boundary w) as [b |]; [| done].
    destruct (ErrorBoundary.hasError b); [| done].
    simpl in Hstep. injection Hstep as <-. by apply debounceCurrent_commit.
  - injection Hstep as <-. by apply debounceCurrent_commit.
  - injection Hstep as <-. by apply debounceCurrent_commit.
Qed.

Lemma debounceCurrent_run (evs : list Event) (w w' : Studio) :
  debounceCurrent w → run B w evs = Some w' → debounceCurrent w'.
Proof.
  revert w. induction evs as [| ev evs IH]; intros w Hw Hrun; simpl in Hrun.
  - by injection Hrun as <-.
  - destruct (step B w ev) as [w1 |] eqn:Hstep; [| done].
    eapply IH; [| exact Hrun]. by eapply debounceCurrent_step.
Qed.

(** An answer with a non-empty [code] puts that code into the editor. *)
Lemma answer_sets_code (w : Studio) (k : nat) (p : Pending) statusText data c :
  inflight w !! k = Some p →
  data_code data = Some c →
  truthy c = true →
  ∃ w', step B w (Responds k (Answered true statusText data)) = Some w'
        ∧ code (ui w') = c.
Proof.
  intros Hp Hc Ht. simpl. rewrite Hp.
  unfold handleGenerate_receive, try_finally, try_catch, bind, set, ret.
  simpl. rewrite Hc. simpl. rewrite Ht.
  destruct (truthy_opt (autoRetryError p)); simpl; eexists; split; done.
Qed.

(** A failed fetch, in full: the conversation becomes the turns the call
    captured when it started plus one system message, the in-flight flag is
    cleared, and nothing else changes: not the source, not the preview
    error, no timer. *)
Lemma transport_failure (p : Pending) (r : Response) (h : Heap) text :
  failureText r = Some text →
  handleGenerate_receive p r h =
    ({| hooks := setIsGenerating false
                   (setMessages (fun _ => newMessages p ++ [systemTurn text])
                      (hooks h));
        scheduled := scheduled h |}, inr tt).
Proof.
  intros Hr. destruct r as [e | [|] statusText data]; simpl in Hr;
    try discriminate; injection Hr as <-; reflexivity.
Qed.

(** When no other call has touched the conversation since the failing call
    appended its turn, the failure appends one system message to it. *)
Lemma transport_failure_appends (w : Studio) (k : nat) (p : Pending)
    (r : Response) text :
  inflight w !! k = Some p →
  failureText r = Some text →
  messages (ui w) = newMessages p →
  ∃ w', step B w (Responds k r) = Some w'
        ∧ messages (ui w') = messages (ui w) ++ [systemTurn text]
        ∧ code (ui w') = code (ui w)
        ∧ previewError (ui w') = previewError (ui w)
        ∧ retries w' = retries w
        ∧ debounce w' = debounce w.
Proof.
  intros Hp Hr Hm. simpl. rewrite Hp.
  rewrite (transport_failure p r _ text Hr).
  eexists. split; [reflexivity |]. simpl.
  rewrite String.eqb_refl, app_nil_r, Hm. done.
Qed.

End StudioClaims.

Section TraceClaims.
Import Js WidgetStudio.

(** C3, as the code has it.  In every state the component can reach, the
    pending debounce timer, if there is one, closes over the current source:
    a change of source cancels the evaluation scheduled for the older one,
    so only the newest source is compiled.  Answers of the generation
    service carry no revision: whichever outstanding request is answered
    with a non-empty code, that code replaces the source in the editor,
    whatever the source is by then. *)
Theorem only_current_source_is_compiled (B : Browser) (s0 : State)
    (evs : list Event) (w : Studio) :
  run B (mount s0) evs = Some w →
  (∀ due env, debounce w = Some (due, env) → code env = code (ui w))
  ∧ (∀ k p statusText data c,
       inflight w !! k = Some p →
       data_code data = Some c →
       truthy c = true →
       ∃ w', step B w (Responds k (Answered true statusText data)) = Some w'
             ∧ code (ui w') = c).
Proof.
  intros Hrun. split.
  - apply (debounceCurrent_run B evs (mount s0) w); [| done].
    intros due env [= _ <-]. done.
  - intros k p statusText data c. apply answer_sets_code.
Qed.

Lemma only_current_source_example :
  ∃ w, run Scenarios.strict (mount initialState) Scenarios.editWhileGenerating = Some w
    ∧ (∀ due env, debounce w = Some (due, env) → code env = code (ui w))
    ∧ (∀ k p statusText data c,
         inflight w !! k = Some p →
         data_code data = Some c →
         truthy c = true →
         ∃ w', step Scenarios.strict w (Responds k (Answered true statusText data)) = Some w'
               ∧ code (ui w') = c).
Proof.
  eexists. split; [vm_compute; reflexivity |].
  apply (only_current_source_is_compiled Scenarios.strict initialState
           Scenarios.editWhileGenerating).
  vm_compute. reflexivity.
Defined.

(** C3 fails as stated.  A request is sent for the initial source; while it
    is outstanding the user replaces the source, and the replacement is
    compiled and shown.  When the answer to the older request arrives it is
    applied all the same: its code replaces the newer source and is
    scheduled for evaluation. *)
Lemma stale_answer_overwrites_edit :
  (fun w => (code (ui w), previewComponent (ui w),
             (current_code ∘ request) <$> inflight w))
    <$> run Scenarios.strict (mount initialState) Scenarios.editWhileGenerating
    = Some (Scenarios.ownEdit, Some (Compiled 1), [Some initialCode])
  ∧ (fun w => (code (ui w), (code ∘ snd) <$> debounce w, inflight w))
    <$> run Scenarios.strict (mount initialState) Scenarios.staleAnswerArrives
    = Some (Scenarios.generatedCode, Some Scenarios.generatedCode, []).
Proof. split; vm_compute; reflexivity. Qed.

(** C4 at a failing input.  The user types a broken source with two pauses;
    each pause ends in a failed evaluation with its own message, both before
    the first retry timer has run.  Both timers run, and the second
    automatic correction is sent while the first is still outstanding. *)
Theorem second_correction_while_first_in_flight :
  (fun w => (now w, autoRetryError <$> autoCorrections w,
             (current_code ∘ request) <$> autoCorrections w))
    <$> run Scenarios.strict (mount initialState) Scenarios.typingWithPauses
    = Some (2100,
            [Some Scenarios.unexpectedToken; Some Scenarios.unterminatedJsx],
            [Some Scenarios.brokenHeader; Some Scenarios.brokenBody]).
Proof. vm_compute. reflexivity. Qed.

(** C7 at a failing input.  Two prompts are outstanding; both user turns
    are in the conversation.  When the first request fails with HTTP 500,
    the conversation is replaced by the turns the first call had captured
    plus the error message: the second user turn is gone, although its
    request is still outstanding.  The source is untouched and no retry is
    scheduled. *)
Theorem failure_drops_later_turn :
  (fun w => messages (ui w))
    <$> run Scenarios.strict (mount initialState) Scenarios.twoPrompts
    = Some [ Scenarios.welcome;
             {| role := user; content := "a bar chart" |};
             {| role := user; content := "make it blue" |} ]
  ∧ (fun w => (messages (ui w), (req_prompt ∘ request) <$> inflight w,
               code (ui w), dueTimes w))
    <$> run Scenarios.strict (mount initialState) Scenarios.twoPromptsFirstFails
    = Some ([ Scenarios.welcome;
              {| role := user; content := "a bar chart" |};
              {| role := system; content := "Server Error: model overloaded" |} ],
            [Some "make it blue"], initialCode, []).
Proof. split; vm_compute; reflexivity. Qed.

(** C9 fails as stated.  First, the user edits the source by hand while an
    automatic correction is outstanding; the edited source fails with a
    message of its own, which is shown, but no retry is scheduled, neither
    then nor after the outstanding request has failed: in the end no timer
    and no request is left.  Second, the user edits the source by hand after
    an automatic correction has failed; the edited source fails with the
    message of the first failure; nothing is shown for it, and again no
    timer and no request is left. *)
Lemma manual_edit_gets_no_retry :
  (fun w => (previewError (ui w), code (ui w), dueTimes w, inflight w))
    <$> run Scenarios.strict (mount initialState) Scenarios.editDuringCorrection
    = Some (Some Scenarios.unterminatedJsx, Scenarios.brokenBody, [], [])
  ∧ (fun w => (previewError (ui w), code (ui w), dueTimes w, inflight w))
    <$> run Scenarios.strict (mount initialState) Scenarios.editKeepsError
    = Some (None, Scenarios.brokenHeaderStill, [], []).
Proof. split; vm_compute; reflexivity. Qed.

End TraceClaims.

(** ** The containment boundary *)

Section BoundaryClaims.
Import Js ErrorBoundary.

Context {E : Type}.

Lemma renderPass_Host (children : list (Fiber E)) :
  renderPass (Host children) =
    match renderChildren renderPass children with
    | inl e => inl e
    | inr (children', ms, eff) => inr (Host children', Fragment ms, eff)
    end.
Proof. reflexivity. Qed.

Lemma renderChildren_cons (f : Fiber E) rest f' m eff rest' ms effs :
  renderPass f = inr (f', m, eff) →
  renderChildren renderPass rest = inr (rest', ms, effs) →
  renderChildren renderPass (f :: rest) = inr (f' :: rest', m :: ms, eff ++ effs).
Proof. intros Hf Hrest. simpl. by rewrite Hf, Hrest. Qed.

(** Siblings before and after a child are rendered as they are on their
    own; the child contributes its fiber, its markup and its effects in
    place. *)
Lemma renderChildren_middle (before after : list (Fiber E)) (f : Fiber E)
    before' mb eb f' m eff after' ma ea :
  renderChildren renderPass before = inr (before', mb, eb) →
  renderPass f = inr (f', m, eff) →
  renderChildren renderPass after = inr (after', ma, ea) →
  renderChildren renderPass (before ++ f :: after)
    = inr (before' ++ f' :: after', mb ++ m :: ma, eb ++ eff ++ ea).
Proof.
  revert before' mb eb.
  induction before as [| x xs IH]; intros before' mb eb Hb Hf Ha.
  - injection Hb as <- <- <-. simpl app. by apply renderChildren_cons.
  - simpl in Hb.
    destruct (renderPass x) as [e | [[x' mx] ex]] eqn:Hx; [done |].
    destruct (renderChildren renderPass xs) as [e | [[xs' mxs] exs]] eqn:Hxs;
      [done |].
    injection Hb as <- <- <-.
    rewrite <- !app_comm_cons, <- app_assoc.
    apply renderChildren_cons; [done |].
    by apply IH.
Qed.

Lemma renderPass_boundary_catches (st : State)
    (onErr : option (Thrown → list E)) (child : Fiber E) (e : Thrown) :
  hasError st = false →
  renderPass child = inl e →
  renderPass (Boundary st onErr child)
    = inr (Boundary (getDerivedStateFromError e) onErr child,
           FallbackPanel (error_message (getDerivedStateFromError e)),
           componentDidCatch onErr e).
Proof. intros Hst Hchild. simpl. by rewrite Hst, Hchild. Qed.

(** Without a boundary around it, the throw of a child takes the whole host
    element with it. *)
Lemma renderChildren_unguarded (before after : list (Fiber E)) (f : Fiber E)
    before' mb eb e :
  renderChildren renderPass before = inr (before', mb, eb) →
  renderPass f = inl e →
  renderPass (Host (before ++ f :: after)) = inl e.
Proof.
  intros Hb Hf. rewrite renderPass_Host.
  revert before' mb eb Hb.
  induction before as [| x xs IH]; intros before' mb eb Hb.
  - simpl. by rewrite Hf.
  - simpl in Hb. simpl.
    destruct (renderPass x) as [e' | [[x' mx] ex]] eqn:Hx; [done |].
    destruct (renderChildren renderPass xs) as [e' | [[xs' mxs] exs]] eqn:Hxs;
      [done |].
    specialize (IH _ _ _ eq_refl).
    destruct (renderChildren renderPass (xs ++ f :: after)) as [e' | [[r1 r2] r3]];
      [by injection IH as -> | discriminate IH].
Qed.

(** C2.  Whatever subtree under a boundary that has not failed throws
    during a render, first or later, the boundary ends up in the failed
    state holding the error, shows the fixed fallback in place of the
    subtree, and passes the error to its [onError] callback; the widgets
    mounted beside it under the same host element keep the fibers, the
    markup and the effects they have on their own.  From then on the
    boundary shows the fallback without rendering the subtree.  The
    callback the studio passes hands the error to the generation handler
    through a timer unless a generation is in flight. *)
Theorem boundary_contains_render_error (st : State)
    (onErr : option (Thrown → list E)) (child : Fiber E) (e : Thrown)
    (before after : list (Fiber E)) before' mb eb after' ma ea :
  hasError st = false →
  renderPass child = inl e →
  renderChildren renderPass before = inr (before', mb, eb) →
  renderChildren renderPass after = inr (after', ma, ea) →
  let failed := getDerivedStateFromError e in
  let fallback := FallbackPanel (error_message failed) in
  hasError failed = true
  ∧ error failed = Some e
  ∧ renderPass (Host (before ++ Boundary st onErr child :: after))
    = inr (Host (before' ++ Boundary failed onErr child :: after'),
           Fragment (mb ++ fallback :: ma),
           eb ++ componentDidCatch onErr e ++ ea)
  ∧ renderPass (Boundary failed onErr child)
    = inr (Boundary failed onErr child, fallback, [])
  ∧ (∀ env,
       componentDidCatch (Some (WidgetStudio.onError env)) e
       = if WidgetStudio.isGenerating env then []
         else [ {| WidgetStudio.retry_delay := 1000;
                   WidgetStudio.retry_arg := WidgetStudio.CaughtError e;
                   WidgetStudio.retry_closure := env |} ]).
Proof.
  intros Hst Hchild Hb Ha failed fallback.
  split; [done |]. split; [done |]. split; [| split].
  - rewrite renderPass_Host.
    rewrite (renderChildren_middle before after (Boundary st onErr child)
               before' mb eb (Boundary failed onErr child) fallback
               (componentDidCatch onErr e) after' ma ea); try done.
    by apply renderPass_boundary_catches.
  - reflexivity.
  - intros env. simpl. unfold WidgetStudio.onError.
    by destruct (WidgetStudio.isGenerating env).
Qed.

End BoundaryClaims.

Section BoundaryExample.
Import Js ErrorBoundary.

Lemma boundary_contains_bogus :
  let failed := getDerivedStateFromError Scenarios.bogus in
  let fallback := FallbackPanel (error_message failed) in
  let onErr := Some (WidgetStudio.onError WidgetStudio.initialState) in
  hasError failed = true
  ∧ error failed = Some Scenarios.bogus
  ∧ renderPass (Host ([Scenarios.alerts] ++ Scenarios.failingPreview :: [Scenarios.inventory]))
    = inr (Host ([Scenarios.alerts] ++ Scenarios.failedPreview :: [Scenarios.inventory]),
           Fragment ([Text "alerts"] ++ fallback :: [Text "inventory"]),
           [] ++ componentDidCatch onErr Scenarios.bogus ++ [])
  ∧ renderPass Scenarios.failedPreview = inr (Scenarios.failedPreview, fallback, [])
  ∧ (∀ env,
       componentDidCatch (Some (WidgetStudio.onError env)) Scenarios.bogus
       = if WidgetStudio.isGenerating env then []
         else [ {| WidgetStudio.retry_delay := 1000;
                   WidgetStudio.retry_arg := WidgetStudio.CaughtError Scenarios.bogus;
                   WidgetStudio.retry_closure := env |} ]).
Proof.
  exact (boundary_contains_render_error initialState
           (Some (WidgetStudio.onError WidgetStudio.initialState))
           (Leaf (inl Scenarios.bogus)) Scenarios.bogus
           [Scenarios.alerts] [Scenarios.inventory]
           [Scenarios.alerts] [Text "alerts"] []
           [Scenarios.inventory] [Text "inventory"] []
           eq_refl eq_refl eq_refl eq_refl).
Defined.

End BoundaryExample.

(** ** Sorting *)

Section SortFacts.
Import JsArray.

Context {A : Type} (le : A → A → bool).

Lemma insertBy_Permutation (x : A) (l : list A) : insertBy le x l ≡ₚ x :: l.
Proof.
  induction l as [| y rest IH]; simpl; [done |].
  destruct (le x y); [done |].
  rewrite IH. apply Permutation_swap.
Qed.

Lemma sortBy_Permutation (l : list A) : sortBy le l ≡ₚ l.
Proof.
  induction l as [| x rest IH]; simpl; [done |].
  unfold sortBy in *. simpl. by rewrite insertBy_Permutation, IH.
Qed.

Lemma sortBy_elem_of (x : A) (l : list A) : x ∈ sortBy le l ↔ x ∈ l.
Proof. by rewrite sortBy_Permutation. Qed.

Lemma sortBy_length (l : list A) : length (sortBy le l) = length l.
Proof. by rewrite sortBy_Permutation. Qed.

Lemma insertBy_HdRel (a x : A) (l : list A) :
  le a x = true → HdRel (fun u v => le u v = true) a l →
  HdRel (fun u v => le u v = true) a (insertBy le x l).
Proof.
  intros Hax Hl. destruct l as [| y rest]; simpl.
  - by constructor.
  - destruct (le x y); constructor; [done |]. by inversion Hl.
Qed.

Lemma insertBy_Sorted (x : A) (l : list A) :
  (∀ a b, le a b = false → le b a = true) →
  Sorted (fun u v => le u v = true) l →
  Sorted (fun u v => le u v = true) (insertBy le x l).
Proof.
  intros Htotal Hl. induction l as [| y rest IH]; simpl.
  - by repeat constructor.
  - destruct (le x y) eqn:Hxy.
    + constructor; [done |]. by constructor.
    + inversion Hl as [| ? ? Hrest Hhd]; subst. constructor.
      * by apply IH.
      * apply insertBy_HdRel; [by apply Htotal | done].
Qed.

Lemma sortBy_Sorted (l : list A) :
  (∀ a b, le a b = false → le b a = true) →
  Sorted (fun u v => le u v = true) (sortBy le l).
Proof.
  intros Htotal. induction l as [| x rest IH]; simpl.
  - constructor.
  - by apply insertBy_Sorted.
Qed.

(** A list already in order is left as it is: elements that compare equal
    are not moved. *)
Lemma sortBy_sorted_id (l : list A) :
  Sorted (fun u v => le u v = true) l → sortBy le l = l.
Proof.
  induction l as [| x rest IH]; intros Hl; [done |].
  inversion Hl as [| ? ? Hrest Hhd]; subst.
  unfold sortBy in *. simpl. rewrite (IH Hrest).
  destruct rest as [| y rest']; simpl; [done |].
  inversion Hhd as [| ? ? Hxy]; subst. by rewrite Hxy.
Qed.

End SortFacts.

Lemma string_leb_total (a b : string) :
  String.leb a b = false → String.leb b a = true.
Proof.
  intros Hab. destruct (String.leb_total a b) as [H | H]; [congruence | done].
Qed.

(** ** More on the registry *)

Section RegistryExtras.
Import WidgetRegistry RegistryViews.

Lemma registerAll_snoc (defs : list WidgetDefinition) (d : WidgetDefinition) :
  registerAll (defs ++ [d]) = registerWidget d (registerAll defs).
Proof. unfold registerAll. by rewrite foldl_app. Qed.

Lemma registerAll_own (defs : list WidgetDefinition) (i : string) :
  i ≠ "__proto__" →
  own (registerAll defs) !! i = last (filter (fun d => id d = i) defs).
Proof.
  intros Hi. induction defs as [| d defs IH] using rev_ind; [done |].
  rewrite registerAll_snoc, filter_app.
  destruct (decide (id d = i)) as [Heq | Hne].
  - rewrite registerWidget_own by congruence. simpl.
    rewrite Heq, lookup_insert_eq.
    rewrite filter_cons_True by done. rewrite filter_nil.
    by rewrite last_snoc.
  - rewrite filter_cons_False by done. rewrite filter_nil, app_nil_r, <- IH.
    destruct (decide (id d = "__proto__")) as [Hproto | Hproto].
    + by rewrite (registerWidget_proto d _ Hproto (registerAll_no_own_proto defs)).
    + rewrite registerWidget_own by done. simpl. by rewrite lookup_insert_ne.
Qed.

Lemma registerAll_proto (defs : list WidgetDefinition) :
  proto (registerAll defs) = last (filter (fun d => id d = "__proto__") defs).
Proof.
  induction defs as [| d defs IH] using rev_ind; [done |].
  rewrite registerAll_snoc, filter_app.
  destruct (decide (id d = "__proto__")) as [Hproto | Hproto].
  - rewrite (registerWidget_proto d _ Hproto (registerAll_no_own_proto defs)).
    simpl. rewrite filter_cons_True by done. rewrite filter_nil.
    by rewrite last_snoc.
  - rewrite registerWidget_own by done. simpl.
    rewrite filter_cons_False by done. by rewrite filter_nil, app_nil_r.
Qed.

(** Reading an id from the registry after a sequence of registrations gives
    the last definition registered under that id.  When none was, the read
    gives what the registry inherits under that name, from the last
    definition registered under [__proto__] or from [Object.prototype]; it
    is [undefined] when the name is not a member of [Object.prototype] and
    nothing was registered under [__proto__].  A definition that is read
    carries the id it was read under. *)
Theorem registerAll_lookup_last (defs : list WidgetDefinition) (i : string) :
  get (registerAll defs) i
  = match last (filter (fun d => id d = i) defs) with
    | Some d => Value d
    | None => inherited (last (filter (fun d => id d = "__proto__") defs)) i
    end
  ∧ (∀ w, get (registerAll defs) i = Value w → id w = i)
  ∧ (last (filter (fun d => id d = i) defs) = None →
     i ∉ Js.objectPrototypeNames →
     Forall (fun d => id d ≠ "__proto__") defs →
     get (registerAll defs) i = Undefined).
Proof.
  assert (Hget : get (registerAll defs) i
                 = match last (filter (fun d => id d = i) defs) with
                   | Some d => Value d
                   | None => inherited
                               (last (filter (fun d => id d = "__proto__") defs)) i
                   end).
  { unfold get. destruct (decide (i = "__proto__")) as [-> | Hi].
    - rewrite registerAll_no_own_proto, registerAll_proto.
      unfold inherited. simpl.
      by destruct (last (filter (fun d => id d = "__proto__") defs)).
    - rewrite registerAll_own, registerAll_proto by done.
      by destruct (last (filter (fun d => id d = i) defs)). }
  split; [exact Hget |]. split.
  - intros w. unfold get.
    destruct (own (registerAll defs) !! i) as [w' |] eqn:Hown.
    + intros [= <-]. by apply (keyed_registerAll defs i w').
    + rewrite registerAll_proto. unfold inherited.
      destruct (String.eqb i "__proto__") eqn:Hi.
      * apply String.eqb_eq in Hi as ->.
        destruct (last (filter _ defs)) as [d |] eqn:Hlast; [| done].
        intros [= <-]. apply last_Some_elem_of in Hlast.
        by apply list_elem_of_filter in Hlast as [Hid _].
      * by destruct (_ || _).
  - intros Hnone Hname Hdefs. rewrite Hget, Hnone.
    assert (Hfilter : filter (fun d => id d = "__proto__") defs = []).
    { apply elem_of_nil_inv. intros d Hd.
      apply list_elem_of_filter in Hd as [Hid Hd].
      rewrite Forall_forall in Hdefs. by apply (Hdefs d Hd). }
    rewrite Hfilter. unfold inherited. simpl.
    destruct (String.eqb i "__proto__") eqn:Hi.
    + apply String.eqb_eq in Hi as ->. exfalso. apply Hname.
      unfold Js.objectPrototypeNames. set_solver.
    + by rewrite bool_decide_eq_false_2.
Qed.

Lemma keyed_ids (reg : gmap string WidgetDefinition) :
  keyed reg → id <$> getAvailableWidgets reg = (map_to_list reg).*1.
Proof.
  intros Hk. unfold getAvailableWidgets.
  rewrite <- list_fmap_compose.
  apply Forall_fmap_ext, Forall_forall. intros [k w] Hin. simpl.
  apply elem_of_map_to_list in Hin. by apply Hk.
Qed.

Lemma available_iff (reg : gmap string WidgetDefinition) (w : WidgetDefinition) :
  keyed reg → w ∈ getAvailableWidgets reg ↔ reg !! id w = Some w.
Proof.
  intros Hk. unfold getAvailableWidgets. rewrite list_elem_of_fmap. split.
  - intros ([k w'] & -> & Hin). apply elem_of_map_to_list in Hin.
    simpl. by rewrite (Hk _ _ Hin).
  - intros Hw. exists (id w, w). split; [done |].
    by apply elem_of_map_to_list.
Qed.

(** After any sequence of registrations the list of available widgets has
    every id at most once, and holds a definition exactly when its id is
    not [__proto__] and it is the last definition registered under its
    id. *)
Theorem available_widgets_unique (defs : list WidgetDefinition) :
  NoDup (id <$> getAvailableWidgets (own (registerAll defs)))
  ∧ ∀ w, w ∈ getAvailableWidgets (own (registerAll defs))
         ↔ id w ≠ "__proto__"
           ∧ last (filter (fun d => id d = id w) defs) = Some w.
Proof.
  split.
  - rewrite keyed_ids by apply keyed_registerAll.
    apply NoDup_fst_map_to_list.
  - intros w. rewrite available_iff by apply keyed_registerAll.
    destruct (decide (id w = "__proto__")) as [Hproto | Hproto].
    + rewrite Hproto, registerAll_no_own_proto. by split; [| intros []].
    + rewrite registerAll_own by done. by split; [| intros []].
Qed.

(** Registering an id other than [__proto__] twice, after any
    registrations, leaves exactly one entry for that id, the second
    definition, and a read under the id gives the second definition. *)
Theorem republish_replaces_entry (defs : list WidgetDefinition)
    (first second : WidgetDefinition) :
  id first = id second →
  id first ≠ "__proto__" →
  let r1 := registerWidget first (registerAll defs) in
  let r2 := registerWidget second r1 in
  entriesFor (id first) (own r1) = [first]
  ∧ entriesFor (id first) (own r2) = [second]
  ∧ get r2 (id first) = Value second.
Proof.
  intros Hid Hproto. simpl. repeat split.
  - apply entriesFor_registerWidget; [apply keyed_registerAll | done].
  - rewrite Hid. apply entriesFor_registerWidget; [| congruence].
    apply keyed_registerWidget, keyed_registerAll.
  - rewrite Hid. apply get_registerWidget.
Qed.

Lemma republish_replaces_entry_example :
  let first := Scenarios.kpiWidget "Throughput" 1 in
  let second := Scenarios.kpiWidget "Throughput by line" 2 in
  let r1 := registerWidget first (registerAll Samples.catalogue) in
  let r2 := registerWidget second r1 in
  entriesFor "kpi1" (own r1) = [first]
  ∧ entriesFor "kpi1" (own r2) = [second]
  ∧ get r2 "kpi1" = Value second.
Proof.
  apply (republish_replaces_entry Samples.catalogue
           (Scenarios.kpiWidget "Throughput" 1)
           (Scenarios.kpiWidget "Throughput by line" 2)).
  - reflexivity.
  - discriminate.
Defined.

Lemma sorted_elements (keys : list string) :
  let sorted := JsArray.sortBy String.leb (elements (list_to_set keys : gset string)) in
  Sorted (fun a b => String.leb a b = true) sorted
  ∧ NoDup sorted
  ∧ ∀ c, c ∈ sorted ↔ c ∈ keys.
Proof.
  intros sorted. subst sorted. split; [| split].
  - apply sortBy_Sorted, string_leb_total.
  - rewrite sortBy_Permutation. apply NoDup_elements.
  - intros c. rewrite sortBy_elem_of, elem_of_elements.
    apply elem_of_list_to_set.
Qed.

(** The category list is in ascending order without repetition, and it
    names exactly the categories of the available widgets, a widget without
    a category (or with an empty one) counting as Uncategorized. *)
Theorem getWidgetCategories_spec (reg : gmap string WidgetDefinition) :
  Sorted (fun a b => String.leb a b = true) (getWidgetCategories reg)
  ∧ NoDup (getWidgetCategories reg)
  ∧ ∀ c, c ∈ getWidgetCategories reg
         ↔ ∃ w, w ∈ getAvailableWidgets reg ∧ categoryOf w = c.
Proof.
  destruct (sorted_elements (categoryOf <$> getAvailableWidgets reg))
    as (Hsorted & Hnodup & Hin).
  split; [done |]. split; [done |].
  intros c. unfold getWidgetCategories. rewrite Hin, list_elem_of_fmap.
  split; intros (w & H1 & H2); exists w; by split.
Qed.

(** The domain list is in ascending order without repetition, and it names
    exactly the non-empty domains of the available widgets: a widget
    without a domain contributes nothing to it. *)
Theorem getWidgetDomains_spec (reg : gmap string WidgetDefinition) :
  Sorted (fun a b => String.leb a b = true) (getWidgetDomains reg)
  ∧ NoDup (getWidgetDomains reg)
  ∧ ∀ d, d ∈ getWidgetDomains reg
         ↔ d ≠ "" ∧ ∃ w, w ∈ getAvailableWidgets reg ∧ domain w = Some d.
Proof.
  destruct (sorted_elements (getAvailableWidgets reg ≫= domainsOf))
    as (Hsorted & Hnodup & Hin).
  split; [done |]. split; [done |].
  intros d. unfold getWidgetDomains. rewrite Hin, list_elem_of_bind.
  unfold domainsOf. split.
  - intros (w & Hd & Hw). destruct (domain w) as [d' |] eqn:Hdom.
    + destruct (Js.truthy d') eqn:Ht.
      * apply list_elem_of_singleton in Hd as ->. split; [| by exists w].
        intros ->. discriminate Ht.
      * by apply elem_of_nil in Hd.
    + by apply elem_of_nil in Hd.
  - intros (Hne & w & Hw & Hdom). exists w. split; [| done].
    rewrite Hdom. destruct d as [| a rest]; [done |].
    simpl. apply list_elem_of_singleton. done.
Qed.

End RegistryExtras.

Section Grouping.

Context {A : Type} (key : A → string).

Lemma groups_cons_out (x : A) (l : list A) (ks : list string) :
  key x ∉ ks →
  mjoin ((fun k => filter (fun y => key y = k) (x :: l)) <$> ks)
  = mjoin ((fun k => filter (fun y => key y = k) l) <$> ks).
Proof.
  induction ks as [| k ks IH]; intros Hout; [done |].
  apply not_elem_of_cons in Hout as [Hne Hout].
  csimpl. rewrite filter_cons_False by done. by rewrite IH.
Qed.

Lemma groups_cons_in (x : A) (l : list A) (ks : list string) :
  NoDup ks → key x ∈ ks →
  mjoin ((fun k => filter (fun y => key y = k) (x :: l)) <$> ks)
  ≡ₚ x :: mjoin ((fun k => filter (fun y => key y = k) l) <$> ks).
Proof.
  induction ks as [| k ks IH]; intros Hnd Hin; [by apply elem_of_nil in Hin |].
  apply NoDup_cons in Hnd as [Hk Hnd]. csimpl.
  destruct (decide (key x = k)) as [Heq | Hne].
  - rewrite filter_cons_True by done.
    rewrite groups_cons_out by (by rewrite Heq). done.
  - rewrite filter_cons_False by done.
    apply elem_of_cons in Hin as [Hx | Hin]; [done |].
    rewrite (IH Hnd Hin). symmetry. apply Permutation_middle.
Qed.

(** Filtering a list by each of a set of distinct keys that covers it
    splits the list: the groups together hold every element once. *)
Lemma groups_partition (l : list A) (ks : list string) :
  NoDup ks → (∀ x, x ∈ l → key x ∈ ks) →
  mjoin ((fun k => filter (fun y => key y = k) l) <$> ks) ≡ₚ l.
Proof.
  intros Hnd. induction l as [| x l IH]; intros Hcover.
  - clear Hnd Hcover. induction ks as [| k ks IHk]; [done |].
    csimpl. exact IHk.
  - rewrite groups_cons_in; [| done | apply Hcover; left].
    rewrite IH; [done |]. intros y Hy. apply Hcover. by right.
Qed.

End Grouping.

Section CategoryGroups.
Import WidgetRegistry RegistryViews.

(** The category groups split the registry: the lists that
    [getWidgetsByCategory] gives for the names in [getWidgetCategories],
    taken together, hold every available widget exactly once, and a widget
    is only ever listed under its own category. *)
Theorem category_groups_partition (reg : gmap string WidgetDefinition) :
  mjoin ((fun c => getWidgetsByCategory c reg) <$> getWidgetCategories reg)
    ≡ₚ getAvailableWidgets reg
  ∧ ∀ c w, w ∈ getWidgetsByCategory c reg → categoryOf w = c.
Proof.
  destruct (sorted_elements (categoryOf <$> getAvailableWidgets reg))
    as (_ & Hnd & Hin).
  split.
  - apply (groups_partition categoryOf); [done |].
    intros w Hw. apply Hin. by apply list_elem_of_fmap_2.
  - intros c w Hw. unfold getWidgetsByCategory in Hw.
    by apply list_elem_of_filter in Hw as [Hc _].
Qed.

End CategoryGroups.

(** ** The widget list of the tray *)

Lemma Sorted_weaken {A : Type} (R1 R2 : A → A → Prop) (l : list A) :
  (∀ a b, R1 a b → R2 a b) → Sorted R1 l → Sorted R2 l.
Proof.
  intros Himp Hl. induction Hl as [| x l Hl IH Hhd]; constructor; [done |].
  destruct Hhd; constructor. by apply Himp.
Qed.

Lemma Sorted_weaken_Forall {A : Type} (P : A → Prop) (R1 R2 : A → A → Prop)
    (l : list A) :
  Forall P l →
  (∀ a b, P a → P b → R1 a b → R2 a b) → Sorted R1 l → Sorted R2 l.
Proof.
  intros HP Himp Hl. induction Hl as [| x l Hl IH Hhd]; constructor.
  - apply IH. by apply Forall_inv_tail in HP.
  - destruct Hhd as [| y l' Hxy]; constructor.
    apply Forall_cons in HP as [Hx HP]. apply Forall_cons in HP as [Hy _].
    by apply Himp.
Qed.

Section TrayFacts.
Import WidgetRegistry WidgetTray.

Implicit Types (f : Filters) (scores : gmap string Z)
  (widgets : list WidgetDefinition).

Lemma byGroup_sublist f widgets : byGroup f widgets `sublist_of` widgets.
Proof. unfold byGroup. destruct (_ && _); [apply sublist_filter | done]. Qed.

Lemma bySearch_sublist f widgets : bySearch f widgets `sublist_of` widgets.
Proof. unfold bySearch. destruct (Js.truthy _); [apply sublist_filter | done]. Qed.

Lemma byCertified_sublist f widgets : byCertified f widgets `sublist_of` widgets.
Proof.
  unfold byCertified. destruct (showCertifiedOnly f); [apply sublist_filter | done].
Qed.

Lemma byAccess_sublist f widgets : byAccess f widgets `sublist_of` widgets.
Proof.
  unfold byAccess. destruct (accessFilter f); [done | apply sublist_filter | apply sublist_filter].
Qed.

Lemma filters_sublist f widgets :
  byAccess f (byCertified f (bySearch f (byGroup f widgets))) `sublist_of` widgets.
Proof.
  etrans; [apply byAccess_sublist |].
  etrans; [apply byCertified_sublist |].
  etrans; [apply bySearch_sublist | apply byGroup_sublist].
Qed.

Lemma morePopular_total scores (a b : WidgetDefinition) :
  morePopular scores a b = false → morePopular scores b a = true.
Proof.
  unfold morePopular.
  destruct (popularity scores a), (popularity scores b); try done.
  intros H. apply Z.leb_gt in H. apply Z.leb_le. lia.
Qed.

Lemma filteredWidgets_submseteq f scores widgets :
  filteredWidgets f scores widgets ⊆+ widgets.
Proof.
  unfold filteredWidgets. rewrite sortBy_Permutation.
  apply sublist_submseteq, filters_sublist.
Qed.

(** The tray lists only widgets it was given, none more often than it was
    given; and when the score of every widget is a number, as it is unless
    a widget without a score has the name of a member of
    [Object.prototype] for its id, it lists them by score, the highest
    first. *)
Theorem tray_list_sorted f scores widgets :
  Forall (fun w => popularity scores w ≠ NotANumber) widgets →
  filteredWidgets f scores widgets ⊆+ widgets
  ∧ Sorted (fun a b => ∃ scoreA scoreB,
                popularity scores a = Number scoreA
                ∧ popularity scores b = Number scoreB
                ∧ (scoreB ≤ scoreA)%Z)
      (filteredWidgets f scores widgets).
Proof.
  intros Hnum. split; [apply filteredWidgets_submseteq |].
  assert (Hlisted : Forall (fun w => popularity scores w ≠ NotANumber)
                      (filteredWidgets f scores widgets)).
  { apply Forall_forall. intros w Hw. rewrite Forall_forall in Hnum.
    apply Hnum. eapply elem_of_submseteq; [exact Hw |].
    apply filteredWidgets_submseteq. }
  eapply (Sorted_weaken_Forall _ _ _ _ Hlisted);
    [| apply sortBy_Sorted, morePopular_total].
  intros a b Ha Hb. unfold morePopular.
  destruct (popularity scores a) as [x |]; [| done].
  destruct (popularity scores b) as [y |]; [| done].
  intros Hle. exists x, y. apply Z.leb_le in Hle. done.
Qed.

Lemma tray_list_sorted_example :
  filteredWidgets (Samples.filters "" None) Samples.scores Samples.catalogue
    ⊆+ Samples.catalogue
  ∧ Sorted (fun a b => ∃ scoreA scoreB,
                popularity Samples.scores a = Number scoreA
                ∧ popularity Samples.scores b = Number scoreB
                ∧ (scoreB ≤ scoreA)%Z)
      (filteredWidgets (Samples.filters "" None) Samples.scores Samples.catalogue).
Proof.
  apply (tray_list_sorted (Samples.filters "" None) Samples.scores
           Samples.catalogue).
  repeat constructor; vm_compute; discriminate.
Defined.

(** What the toggles promise holds for every listed widget: with the
    certified toggle on, it is certified or of category Custom; in the
    accessible view it is not restricted; in the restricted view it is. *)
Theorem tray_toggles_respected f scores widgets :
  Forall (fun w =>
      (showCertifiedOnly f = true → certifiedOrCustom w = true)
      ∧ (accessFilter f = Accessible → restricted w = false)
      ∧ (accessFilter f = Restricted → restricted w = true))
    (filteredWidgets f scores widgets).
Proof.
  apply Forall_forall. intros w Hw. unfold filteredWidgets in Hw.
  rewrite sortBy_elem_of in Hw. split; [| split].
  - intros Hc. unfold byAccess in Hw.
    assert (Hin : w ∈ byCertified f (bySearch f (byGroup f widgets))).
    { destruct (accessFilter f); [done | ..];
        by apply list_elem_of_filter in Hw as [_ Hw]. }
    unfold byCertified in Hin. rewrite Hc in Hin.
    by apply list_elem_of_filter in Hin as [Hin _].
  - intros Ha. unfold byAccess in Hw. rewrite Ha in Hw.
    by apply list_elem_of_filter in Hw as [Hw _].
  - intros Ha. unfold byAccess in Hw. rewrite Ha in Hw.
    by apply list_elem_of_filter in Hw as [Hw _].
Qed.

(** While a search text is entered the selected group plays no part: the
    search runs over all groups. *)
Theorem search_overrides_group (q : string) (group1 group2 : option string)
    (g : Grouping) (certified : bool) (access : AccessFilter) scores widgets :
  q ≠ "" →
  filteredWidgets {| searchQuery := q; selectedGroup := group1; grouping := g;
                     showCertifiedOnly := certified; accessFilter := access |}
    scores widgets
  = filteredWidgets {| searchQuery := q; selectedGroup := group2; grouping := g;
                       showCertifiedOnly := certified; accessFilter := access |}
      scores widgets.
Proof.
  intros Hq. unfold filteredWidgets, byAccess, byCertified, bySearch, byGroup.
  simpl. destruct q as [| a rest]; [done |]. reflexivity.
Qed.

Lemma search_overrides_group_example :
  filteredWidgets (Samples.filters "alert" (Some "Planning")) ∅ Samples.catalogue
  = filteredWidgets (Samples.filters "alert" None) ∅ Samples.catalogue.
Proof.
  apply (search_overrides_group "alert" (Some "Planning") None ByCategory true
           AllWidgets ∅ Samples.catalogue).
  discriminate.
Defined.

(** The accessible view and the restricted view split the unfiltered view:
    together they list what the view without an access filter lists, every
    widget in exactly one of them. *)
Theorem access_views_partition (q : string) (group : option string)
    (g : Grouping) (certified : bool) scores widgets :
  let view access :=
    filteredWidgets {| searchQuery := q; selectedGroup := group; grouping := g;
                       showCertifiedOnly := certified; accessFilter := access |}
      scores widgets in
  view Accessible ++ view Restricted ≡ₚ view AllWidgets.
Proof.
  intros view. subst view. unfold filteredWidgets. simpl.
  rewrite !sortBy_Permutation. unfold byAccess. simpl.
  set (l := byCertified _ _).
  rewrite <- (filter_app_complement (fun w => restricted w = false) l) at 3.
  f_equiv. apply reflexive_eq, list_filter_iff.
  intros w. by destruct (restricted w).
Qed.

(** Without a search text, the number beside a group in the sidebar is
    never smaller than the number of widgets listed for that group: the
    number counts all widgets of the group, whatever the toggles hide. *)
Theorem group_count_bounds_list (group : string) (g : Grouping)
    (certified : bool) (access : AccessFilter) scores widgets :
  group ≠ "" →
  (length (filteredWidgets
             {| searchQuery := ""; selectedGroup := Some group; grouping := g;
                showCertifiedOnly := certified; accessFilter := access |}
             scores widgets)
   ≤ groupCount g group widgets)%nat.
Proof.
  intros Hg. unfold filteredWidgets. rewrite sortBy_length.
  etrans; [apply sublist_length, byAccess_sublist |].
  etrans; [apply sublist_length, byCertified_sublist |].
  etrans; [apply sublist_length, bySearch_sublist |].
  unfold byGroup, groupCount. simpl.
  destruct group as [| a rest]; [done |]. simpl.
  apply Nat.eq_le_incl. f_equal. apply list_filter_iff.
  intros w. split; [by intros [= ->] | by intros ->].
Qed.

Lemma group_count_bounds_list_example :
  (length (filteredWidgets (Samples.filters "" (Some "Planning")) ∅ Samples.catalogue)
   ≤ groupCount ByCategory "Planning" Samples.catalogue)%nat.
Proof.
  apply (group_count_bounds_list "Planning" ByCategory true AllWidgets ∅
           Samples.catalogue).
  discriminate.
Defined.

(** When all widgets have the same score, as before the scores have
    arrived, the sort changes nothing: the list is what the filters leave,
    in the order in which the widgets were given. *)
Theorem equal_scores_keep_order f scores widgets (c : Z) :
  Forall (fun w => popularity scores w = Number c) widgets →
  filteredWidgets f scores widgets
  = byAccess f (byCertified f (bySearch f (byGroup f widgets)))
  ∧ filteredWidgets f scores widgets `sublist_of` widgets.
Proof.
  intros Hc. unfold filteredWidgets.
  set (l := byAccess _ _).
  assert (Hl : l `sublist_of` widgets) by apply filters_sublist.
  rewrite sortBy_sorted_id; [by split |].
  assert (Hall : Forall (fun w => popularity scores w = Number c) l).
  { apply Forall_forall. intros w Hw.
    rewrite Forall_forall in Hc. apply Hc. by eapply elem_of_sublist. }
  clearbody l. clear Hl. induction Hall as [| x l Hx Hall IH]; [constructor |].
  constructor; [exact IH |].
  destruct Hall as [| y l Hy Hall]; constructor.
  unfold morePopular. rewrite Hx, Hy. apply Z.leb_refl.
Qed.

Lemma equal_scores_keep_order_example :
  filteredWidgets (Samples.filters "" None) ∅ Samples.catalogue
  = Samples.catalogue
  ∧ filteredWidgets (Samples.filters "" None) ∅ Samples.catalogue
      `sublist_of` Samples.catalogue.
Proof.
  apply (equal_scores_keep_order (Samples.filters "" None) ∅ Samples.catalogue 0).
  repeat constructor.
Defined.

Lemma toLowerCase_truthy (q1 q2 : string) :
  toLowerCase q1 = toLowerCase q2 → Js.truthy q1 = Js.truthy q2.
Proof. destruct q1, q2; simpl; intros H; by try discriminate H. Qed.

(** The search does not tell capital from small letters in the search
    text: two texts with the same lower-case form give the same list. *)
Theorem search_ignores_case (q1 q2 : string) (group : option string)
    (g : Grouping) (certified : bool) (access : AccessFilter) scores widgets :
  toLowerCase q1 = toLowerCase q2 →
  filteredWidgets {| searchQuery := q1; selectedGroup := group; grouping := g;
                     showCertifiedOnly := certified; accessFilter := access |}
    scores widgets
  = filteredWidgets {| searchQuery := q2; selectedGroup := group; grouping := g;
                       showCertifiedOnly := certified; accessFilter := access |}
      scores widgets.
Proof.
  intros Hq. unfold filteredWidgets, byAccess, byCertified, bySearch, byGroup.
  simpl. by rewrite Hq, (toLowerCase_truthy q1 q2 Hq).
Qed.

Lemma search_ignores_case_example :
  filteredWidgets (Samples.filters "ALERT" None) ∅ Samples.catalogue
  = filteredWidgets (Samples.filters "alert" None) ∅ Samples.catalogue.
Proof.
  exact (search_ignores_case "ALERT" "alert" None ByCategory true AllWidgets ∅
           Samples.catalogue eq_refl).
Defined.

End TrayFacts.

(** ** What stays true while the studio runs *)

Section StudioInvariants.
Import Js WidgetStudio StudioExtras.

Variable B : Browser.

Lemma run_invariant (P : Studio → Prop) :
  (∀ w ev w', P w → step B w ev = Some w' → P w') →
  ∀ evs w w', P w → run B w evs = Some w' → P w'.
Proof.
  intros Hstep evs. induction evs as [| ev evs IH]; intros w w' Hw Hrun;
    simpl in Hrun.
  - by injection Hrun as <-.
  - destruct (step B w ev) as [w1 |] eqn:Hev; [| done].
    eapply IH; [| exact Hrun]. by eapply Hstep.
Qed.

(** The start of [handleGenerate] leaves the preview component alone and
    either leaves or clears the preview error. *)
Lemma send_preview (arg : option string) (env s : State) :
  previewComponent (handleGenerate_send arg env s).1 = previewComponent s
  ∧ (previewError (handleGenerate_send arg env s).1 = previewError s
     ∨ previewError (handleGenerate_send arg env s).1 = None).
Proof.
  unfold handleGenerate_send.
  destruct (negb (truthy (prompt env)) && negb (truthy_opt arg)); simpl; [auto |].
  destruct arg as [err |]; [destruct (truthy err) |]; simpl; auto.
Qed.

Lemma send_isGenerating (arg : option string) (env s : State) :
  match (handleGenerate_send arg env s).2 with
  | Some _ => True
  | None => (handleGenerate_send arg env s).1 = s
  end.
Proof.
  unfold handleGenerate_send.
  destruct (negb (truthy (prompt env)) && negb (truthy_opt arg)); simpl; [done |].
  destruct arg as [err |]; [destruct (truthy err) |]; simpl; done.
Qed.

(** The end of [handleGenerate] touches neither the preview error nor the
    preview component, and always leaves the in-flight flag down. *)
Lemma receive_preview (p : Pending) (r : Response) (h : Heap) :
  let h' := (handleGenerate_receive p r h).1 in
  previewComponent (hooks h') = previewComponent (hooks h)
  ∧ previewError (hooks h') = previewError (hooks h)
  ∧ isGenerating (hooks h') = false
  ∧ scheduled h' = scheduled h.
Proof.
  destruct r as [e | [|] statusText data]; simpl; [done | | done].
  unfold handleGenerate_receive, try_finally, try_catch, bind, set, ret.
  simpl. destruct (truthy_opt (data_code data));
    destruct (truthy_opt (autoRetryError p)); simpl; done.
Qed.

(** Whatever [evaluateCode] meets, it never leaves both a preview error and
    a preview component, it leaves the in-flight flag alone, and every
    timer it sets belongs to a render with the flag down. *)
Lemma evaluateCode_effects (env : State) (h : Heap) :
  let h' := (evaluateCode B env h).1 in
  errorOrComponent (hooks h')
  ∧ isGenerating (hooks h') = isGenerating (hooks h)
  ∧ viewMode (hooks h') = viewMode (hooks h)
  ∧ code (hooks h') = code (hooks h)
  ∧ (scheduled h' = scheduled h
     ∨ ∃ msg, isGenerating env = false
              ∧ scheduled h' = scheduled h ++ [retryFor msg env]).
Proof.
  unfold evaluateCode, try_catch, bind, set, ret, throw, call,
    setTimeout_handleGenerate, errorOrComponent.
  simpl. repeat case_match; simplify_eq/=;
    (split; [first [ by intros [x Hx] | by intros _ ] |]);
    repeat split; auto;
    right; eexists; (split; [| reflexivity]);
    by apply negb_true_iff.
Qed.

Lemma errorOrComponent_call (w : Studio) (arg : option string) (env : State) :
  errorOrComponent (ui w) → errorOrComponent (ui (callHandleGenerate w arg env)).
Proof.
  intros Hw. unfold callHandleGenerate.
  destruct (send_preview arg env (ui w)) as [Hc He].
  destruct (handleGenerate_send arg env (ui w)) as [s' sent]. simpl in *.
  unfold errorOrComponent in *. intros Hsome. rewrite Hc. apply Hw.
  destruct He as [He | He]; rewrite He in Hsome; [done | by destruct Hsome].
Qed.

Lemma errorOrComponent_step (w : Studio) (ev : Event) (w' : Studio) :
  errorOrComponent (ui w) → step B w ev = Some w' → errorOrComponent (ui w').
Proof.
  intros Hw Hstep. destruct ev; simpl in Hstep.
  - destruct (forallb _ _); [| done]. by injection Hstep as <-.
  - by injection Hstep as <-.
  - by injection Hstep as <-.
  - by injection Hstep as <-.
  - injection Hstep as <-. by apply errorOrComponent_call.
  - destruct (_ || _); [done |]. injection Hstep as <-.
    by apply errorOrComponent_call.
  - destruct (debounce w) as [[due env] |]; [| done].
    destruct (due <=? now w)%nat; [| done].
    pose proof (evaluateCode_effects env {| hooks := ui w; scheduled := [] |})
      as (He & _).
    destruct (evaluateCode B env _) as [h r]. by injection Hstep as <-.
  - destruct (retries w !! k) as [[due r] |]; [| done].
    destruct (due <=? now w)%nat; [| done].
    destruct (retryArgument _) as [e | msg]; injection Hstep as <-; [done |].
    by apply (errorOrComponent_call
                {| now := now w; ui := ui w; debounce := debounce w;
                   retries := delete k (retries w); inflight := inflight w;
                   boundary := boundary w |}).
  - destruct (inflight w !! k) as [p |]; [| done].
    pose proof (receive_preview p r {| hooks := ui w; scheduled := [] |})
      as (Hc & He & _).
    destruct (handleGenerate_receive p r _) as [h res]. injection Hstep as <-.
    simpl in *. unfold errorOrComponent. rewrite Hc, He. apply Hw.
  - destruct (boundary w) as [b |]; [| done].
    destruct (ErrorBoundary.hasError b); [done |]. by injection Hstep as <-.
  - destruct (boundary w) as [b |]; [| done].
    destruct (ErrorBoundary.hasError b); [| done].
    simpl in Hstep. injection Hstep as <-. by intros _.
  - by injection Hstep as <-.
  - by injection Hstep as <-.
Qed.

(** An error on screen and a preview component exclude each other, in every
    state the studio reaches from a state where they do. *)
Theorem error_excludes_component (s0 : State) (evs : list Event) (w : Studio) :
  errorOrComponent s0 →
  run B (mount s0) evs = Some w →
  is_Some (previewError (ui w)) → previewComponent (ui w) = None.
Proof.
  intros H0 Hrun.
  apply (run_invariant (fun w => errorOrComponent (ui w))
           errorOrComponent_step evs (mount s0) w H0 Hrun).
Qed.

Lemma retriesSetWhileIdle_commit (w : Studio) s' b (timers : list Retry) sent :
  retriesSetWhileIdle w →
  Forall (fun r => isGenerating (retry_closure r) = false) timers →
  retriesSetWhileIdle (commit w s' b timers sent).
Proof.
  intros Hw Ht. unfold retriesSetWhileIdle, commit. simpl.
  apply Forall_app. split; [done |].
  apply Forall_fmap. by eapply Forall_impl.
Qed.

Lemma retriesSetWhileIdle_step (w : Studio) (ev : Event) (w' : Studio) :
  retriesSetWhileIdle w → step B w ev = Some w' → retriesSetWhileIdle w'.
Proof.
  intros Hw Hstep. destruct ev; simpl in Hstep.
  - destruct (forallb _ _); [| done]. by injection Hstep as <-.
  - injection Hstep as <-. by apply retriesSetWhileIdle_commit.
  - injection Hstep as <-. by apply retriesSetWhileIdle_commit.
  - injection Hstep as <-. by apply retriesSetWhileIdle_commit.
  - injection Hstep as <-. unfold callHandleGenerate.
    destruct (handleGenerate_send _ _ _). by apply retriesSetWhileIdle_commit.
  - destruct (_ || _); [done |]. injection Hstep as <-.
    unfold callHandleGenerate.
    destruct (handleGenerate_send _ _ _). by apply retriesSetWhileIdle_commit.
  - destruct (debounce w) as [[due env] |]; [| done].
    destruct (due <=? now w)%nat; [| done].
    pose proof (evaluateCode_effects env {| hooks := ui w; scheduled := [] |})
      as (_ & _ & _ & _ & Hs).
    destruct (evaluateCode B env _) as [h r]. injection Hstep as <-.
    apply retriesSetWhileIdle_commit; [done |]. simpl in Hs.
    destruct Hs as [-> | (msg & Hgen & ->)]; [done |].
    by repeat constructor.
  - destruct (retries w !! k) as [[due r] |]; [| done].
    destruct (due <=? now w)%nat; [| done].
    assert (Hdel : Forall (fun timer => isGenerating (retry_closure timer.2) = false)
                     (delete k (retries w))).
    { eapply Forall_forall. intros x Hx. unfold retriesSetWhileIdle in Hw.
      rewrite Forall_forall in Hw.
      apply Hw. eapply elem_of_sublist; [exact Hx | apply sublist_delete]. }
    destruct (retryArgument _) as [e | msg]; injection Hstep as <-; [done |].
    unfold callHandleGenerate. simpl.
    destruct (handleGenerate_send _ _ _).
    by apply retriesSetWhileIdle_commit.
  - destruct (inflight w !! k) as [p |]; [| done].
    pose proof (receive_preview p r {| hooks := ui w; scheduled := [] |})
      as (_ & _ & _ & Hs).
    destruct (handleGenerate_receive p r _) as [h res]. injection Hstep as <-.
    simpl in Hs. rewrite Hs. by apply retriesSetWhileIdle_commit.
  - destruct (boundary w) as [b |]; [| done].
    destruct (ErrorBoundary.hasError b); [done |]. injection Hstep as <-.
    apply retriesSetWhileIdle_commit; [done |].
    unfold onError. destruct (isGenerating (ui w)) eqn:Hgen; simpl; [done |].
    by repeat constructor.
  - destruct (boundary w) as [b |]; [| done].
    destruct (ErrorBoundary.hasError b); [| done].
    simpl in Hstep. injection Hstep as <-. by apply retriesSetWhileIdle_commit.
  - injection Hstep as <-. by apply retriesSetWhileIdle_commit.
  - injection Hstep as <-. by apply retriesSetWhileIdle_commit.
Qed.

(** In every state the studio reaches, each pending retry timer was set by
    a render in which no generation was in flight: neither a failed
    evaluation nor a caught render error sets a timer while the in-flight
    flag of its render is up. *)
Theorem retries_set_while_idle (s0 : State) (evs : list Event) (w : Studio) :
  run B (mount s0) evs = Some w →
  Forall (fun timer => isGenerating (retry_closure timer.2) = false) (retries w).
Proof.
  intros Hrun.
  apply (run_invariant retriesSetWhileIdle retriesSetWhileIdle_step evs
           (mount s0) w); [| done].
  constructor.
Qed.

Lemma idle_commit_same (w : Studio) s' b (timers : list Retry) :
  idleWhenNothingInFlight w →
  isGenerating s' = isGenerating (ui w) →
  idleWhenNothingInFlight (commit w s' b timers []).
Proof.
  intros Hw Hs. unfold idleWhenNothingInFlight, commit. simpl.
  rewrite app_nil_r, Hs. apply Hw.
Qed.

Lemma idle_call (w : Studio) (arg : option string) (env : State) :
  idleWhenNothingInFlight w →
  idleWhenNothingInFlight (callHandleGenerate w arg env).
Proof.
  intros Hw. unfold callHandleGenerate.
  pose proof (send_isGenerating arg env (ui w)) as Hs.
  destruct (handleGenerate_send arg env (ui w)) as [s' [p |]]; simpl in Hs.
  - unfold idleWhenNothingInFlight, commit. simpl.
    intros Hnil. by apply app_eq_nil in Hnil as [_ Hnil].
  - subst s'. by apply idle_commit_same.
Qed.

Lemma idle_step (w : Studio) (ev : Event) (w' : Studio) :
  idleWhenNothingInFlight w → step B w ev = Some w' → idleWhenNothingInFlight w'.
Proof.
  intros Hw Hstep. destruct ev; simpl in Hstep.
  - destruct (forallb _ _); [| done]. by injection Hstep as <-.
  - injection Hstep as <-. by apply idle_commit_same.
  - injection Hstep as <-. by apply idle_commit_same.
  - injection Hstep as <-. by apply idle_commit_same.
  - injection Hstep as <-. by apply idle_call.
  - destruct (_ || _); [done |]. injection Hstep as <-. by apply idle_call.
  - destruct (debounce w) as [[due env] |]; [| done].
    destruct (due <=? now w)%nat; [| done].
    pose proof (evaluateCode_effects env {| hooks := ui w; scheduled := [] |})
      as (_ & Hg & _).
    destruct (evaluateCode B env _) as [h r]. injection Hstep as <-.
    by apply (idle_commit_same
                {| now := now w; ui := ui w; debounce := None;
                   retries := retries w; inflight := inflight w;
                   boundary := boundary w |}).
  - destruct (retries w !! k) as [[due r] |]; [| done].
    destruct (due <=? now w)%nat; [| done].
    destruct (retryArgument _) as [e | msg]; injection Hstep as <-; [done |].
    by apply (idle_call
                {| now := now w; ui := ui w; debounce := debounce w;
                   retries := delete k (retries w); inflight := inflight w;
                   boundary := boundary w |}).
  - destruct (inflight w !! k) as [p |]; [| done].
    pose proof (receive_preview p r {| hooks := ui w; scheduled := [] |})
      as (_ & _ & Hg & _).
    destruct (handleGenerate_receive p r _) as [h res]. injection Hstep as <-.
    by intros _.
  - destruct (boundary w) as [b |]; [| done].
    destruct (ErrorBoundary.hasError b); [done |]. injection Hstep as <-.
    by apply idle_commit_same.
  - destruct (boundary w) as [b |]; [| done].
    destruct (ErrorBoundary.hasError b); [| done].
    simpl in Hstep. injection Hstep as <-. by apply idle_commit_same.
  - injection Hstep as <-. by apply idle_commit_same.
  - injection Hstep as <-. by apply idle_commit_same.
Qed.

(** The in-flight flag does not stick: in every state the studio reaches
    from a state with the flag down, the flag is down whenever no request
    is outstanding, however the requests ended. *)
Theorem idle_when_nothing_in_flight (s0 : State) (evs : list Event) (w : Studio) :
  isGenerating s0 = false →
  run B (mount s0) evs = Some w →
  inflight w = [] → isGenerating (ui w) = false.
Proof.
  intros H0 Hrun.
  apply (run_invariant idleWhenNothingInFlight idle_step evs (mount s0) w);
    [by intros _ | done].
Qed.

End StudioInvariants.

Section InvariantExamples.
Import Js WidgetStudio StudioExtras.

Lemma error_excludes_component_example :
  ∃ w, run StudioSamples.refusing (mount initialState)
         StudioSamples.firstEvaluation = Some w
    ∧ previewError (ui w) = Some "Unexpected token (1:1)"
    ∧ previewComponent (ui w) = None.
Proof.
  eexists. split; [vm_compute; reflexivity |].
  split; [vm_compute; reflexivity |].
  apply (error_excludes_component StudioSamples.refusing initialState
           StudioSamples.firstEvaluation).
  - intros _. reflexivity.
  - vm_compute. reflexivity.
  - eexists. vm_compute. reflexivity.
Defined.

Lemma retries_set_while_idle_example :
  ∃ w, run StudioSamples.refusing (mount initialState)
         StudioSamples.firstEvaluation = Some w
    ∧ length (retries w) = 1
    ∧ Forall (fun timer => isGenerating (retry_closure timer.2) = false) (retries w).
Proof.
  eexists. split; [vm_compute; reflexivity |].
  split; [vm_compute; reflexivity |].
  apply (retries_set_while_idle StudioSamples.refusing initialState
           StudioSamples.firstEvaluation).
  vm_compute. reflexivity.
Defined.

Lemma idle_when_nothing_in_flight_example :
  ∃ w, run StudioSamples.accepting (mount initialState)
         StudioSamples.promptFails = Some w
    ∧ inflight w = []
    ∧ isGenerating (ui w) = false.
Proof.
  eexists. split; [vm_compute; reflexivity |].
  split; [vm_compute; reflexivity |].
  apply (idle_when_nothing_in_flight StudioSamples.accepting initialState
           StudioSamples.promptFails).
  - reflexivity.
  - vm_compute. reflexivity.
  - vm_compute. reflexivity.
Defined.

End InvariantExamples.

Section StudioBehaviour.
Import Js WidgetStudio StudioExtras.

Variable B : Browser.

(** Try Again clears the boundary and drops the preview component, and that
    is all: the source is not evaluated again, no timer is set and no
    request is sent, so the preview pane has no component to show until the
    source changes. *)
Theorem try_again_drops_preview (w : Studio) (b : ErrorBoundary.State) :
  boundary w = Some b →
  ErrorBoundary.hasError b = true →
  ∃ w', step B w ClickTryAgain = Some w'
    ∧ previewComponent (ui w') = None
    ∧ boundary w' = None
    ∧ code (ui w') = code (ui w)
    ∧ debounce w' = debounce w
    ∧ retries w' = retries w
    ∧ inflight w' = inflight w.
Proof.
  intros Hb Herr. simpl. rewrite Hb, Herr. simpl. eexists. split; [done |].
  unfold commit, boundaryMounted. simpl.
  rewrite String.eqb_refl, !app_nil_r.
  repeat split.
  destruct (viewMode (ui w)); [| done | done].
  by rewrite andb_false_r.
Qed.

(** A boundary that has failed stays failed when a later source compiles:
    the evaluation stores the new component, the boundary stays mounted with
    its state, and it goes on rendering the fallback panel with the old
    error. *)
Theorem failed_boundary_outlives_repair (w : Studio) (b : ErrorBoundary.State)
    (due : nat) (env : State) (transform : string → JsError + string)
    (js : string) (c : Component) :
  boundary w = Some b →
  ErrorBoundary.hasError b = true →
  viewMode (ui w) = PreviewMode →
  debounce w = Some (due, env) →
  (due ≤ now w)%nat →
  Babel B = Some transform →
  blank (code env) = false →
  transform (code env) = inr js →
  createComponent B js = inr (Some c) →
  ∃ w', step B w DebounceFires = Some w'
    ∧ previewComponent (ui w') = Some c
    ∧ previewError (ui w') = None
    ∧ boundary w' = Some b
    ∧ ∀ children, ErrorBoundary.render b children
                  = ErrorBoundary.FallbackPanel (ErrorBoundary.error_message b).
Proof.
  intros Hb Herr Hview Hdeb Hdue HB Hblank Ht Hc. simpl.
  rewrite Hdeb. apply Nat.leb_le in Hdue. rewrite Hdue.
  unfold evaluateCode, try_catch, bind, set, ret, throw, call.
  rewrite HB. simpl. rewrite Hblank, Ht. simpl. rewrite Hc. simpl.
  eexists. split; [done |]. unfold commit, boundaryMounted. simpl.
  rewrite Hview, Hb. simpl. repeat split.
  intros children. unfold ErrorBoundary.render. by rewrite Herr.
Qed.

End StudioBehaviour.

Section StudioExamples.
Import Js WidgetStudio StudioExtras.

Lemma try_again_drops_preview_example :
  ∃ w, run StudioSamples.accepting (mount initialState)
         (StudioSamples.renderFailureRepaired ++ [DebounceFires]) = Some w
    ∧ previewComponent (ui w) = Some (Compiled 1)
    ∧ code (ui w) = StudioSamples.repaired
    ∧ ∃ w', step StudioSamples.accepting w ClickTryAgain = Some w'
        ∧ previewComponent (ui w') = None
        ∧ boundary w' = None
        ∧ code (ui w') = code (ui w)
        ∧ debounce w' = debounce w
        ∧ retries w' = retries w
        ∧ inflight w' = inflight w.
Proof.
  eexists. split; [vm_compute; reflexivity |].
  split; [vm_compute; reflexivity |]. split; [vm_compute; reflexivity |].
  eapply (try_again_drops_preview StudioSamples.accepting); vm_compute; reflexivity.
Defined.

Lemma failed_boundary_outlives_repair_example :
  ∃ w, run StudioSamples.accepting (mount initialState)
         StudioSamples.renderFailureRepaired = Some w
    ∧ code (ui w) = StudioSamples.repaired
    ∧ ∃ w', step StudioSamples.accepting w DebounceFires = Some w'
        ∧ previewComponent (ui w') = Some (Compiled 1)
        ∧ previewError (ui w') = None
        ∧ boundary w'
          = Some (ErrorBoundary.getDerivedStateFromError StudioSamples.renderError)
        ∧ ∀ children,
            ErrorBoundary.render
              (ErrorBoundary.getDerivedStateFromError StudioSamples.renderError)
              children
            = ErrorBoundary.FallbackPanel
                (ErrorBoundary.error_message
                   (ErrorBoundary.getDerivedStateFromError StudioSamples.renderError)).
Proof.
  eexists. split; [vm_compute; reflexivity |].
  split; [vm_compute; reflexivity |].
  eapply (failed_boundary_outlives_repair StudioSamples.accepting);
    first [ apply Nat.leb_le; vm_compute; reflexivity | vm_compute; reflexivity ].
Defined.

End StudioExamples.

Section LoadAndPublish.
Import Js WidgetStudio StudioExtras.

(** Publishing right after a saved widget was loaded for editing updates
    that widget: the request is a PUT on the widget's own URL and carries
    the saved name and source, the fallbacks for the fields the row lacks,
    and, for the executable flag, which is not loaded, whatever the studio
    had before the load. *)
Theorem publish_after_load (saved : SavedWidget) (s : State) :
  truthy (sw_id saved) = true →
  let request := handlePublish (loadWidget saved s) in
  url request = "/api/widgets/custom/" +:+ sw_id saved
  ∧ method request = PUT
  ∧ pb_name (body request) = sw_name saved
  ∧ tsx_code (body request) = sw_tsx_code saved
  ∧ pb_description (body request) = opt_or_else (sw_description saved) ""
  ∧ pb_category (body request) = opt_or_else (sw_category saved) "Custom"
  ∧ pb_domain (body request) = opt_or_else (sw_domain saved) "General"
  ∧ pb_data_source_type (body request) = default DsNone (sw_data_source_type saved)
  ∧ pb_data_source (body request) = opt_or_else (sw_data_source saved) ""
  ∧ default_w (body request) ≠ 0%Z
  ∧ default_h (body request) ≠ 0%Z
  ∧ pb_isExecutable (body request) = isExecutable (settings s).
Proof.
  intros Hid. unfold handlePublish, loadWidget. simpl. rewrite Hid. simpl.
  repeat split; unfold number_or_six.
  - destruct (sw_default_w saved) as [z |]; [| done].
    destruct (Z.eqb_spec z 0); done.
  - destruct (sw_default_h saved) as [z |]; [| done].
    destruct (Z.eqb_spec z 0); done.
Qed.

Lemma publish_after_load_example :
  let request := handlePublish (loadWidget StudioSamples.savedGauge initialState) in
  url request = "/api/widgets/custom/custom_7f3a"
  ∧ method request = PUT
  ∧ pb_name (body request) = "Gauge"
  ∧ tsx_code (body request) = StudioSamples.repaired
  ∧ pb_description (body request) = ""
  ∧ pb_category (body request) = "Custom"
  ∧ pb_domain (body request) = "Logistics"
  ∧ pb_data_source_type (body request) = DsSql
  ∧ pb_data_source (body request) = "select 1"
  ∧ default_w (body request) ≠ 0%Z
  ∧ default_h (body request) ≠ 0%Z
  ∧ pb_isExecutable (body request) = false.
Proof.
  apply (publish_after_load StudioSamples.savedGauge initialState). reflexivity.
Defined.

End LoadAndPublish.

Section DataSource.
Import Js WidgetStudio StudioExtras.

Lemma collapse_length (inRun : bool) (s : string) :
  (String.length (collapse inRun s) ≤ String.length s)%nat.
Proof.
  revert inRun. induction s as [| c s IH]; intros inRun; simpl; [done |].
  pose proof (IH true). pose proof (IH false).
  destruct (is_whitespace c); [destruct inRun |]; simpl; lia.
Qed.

Lemma substring_length_le (n : nat) (s : string) :
  (String.length (String.substring 0 n s) ≤ n)%nat.
Proof.
  revert n. induction s as [| c s IH]; intros [| n]; simpl; try lia.
  specialize (IH n). lia.
Qed.

Lemma substring_all (n : nat) (s : string) :
  (String.length s ≤ n)%nat → String.substring 0 n s = s.
Proof.
  revert n. induction s as [| c s IH]; intros [| n] Hn; simpl in *;
    try done; try lia.
  f_equal. apply IH. lia.
Qed.

Lemma singleSpaced_substring (afterSpace : bool) (n : nat) (s : string) :
  singleSpaced afterSpace s = true →
  singleSpaced afterSpace (String.substring 0 n s) = true.
Proof.
  revert afterSpace n. induction s as [| c s IH]; intros afterSpace [| n] Hs;
    simpl in *; try done.
  destruct (is_whitespace c).
  - apply andb_true_iff in Hs as [Hc Hrest]. rewrite Hc. simpl. by apply IH.
  - by apply IH.
Qed.

Lemma singleSpaced_collapse (inRun : bool) (s : string) :
  singleSpaced inRun (collapse inRun s) = true.
Proof.
  revert inRun. induction s as [| c s IH]; intros inRun; simpl; [done |].
  destruct (is_whitespace c) eqn:Hc.
  - destruct inRun; [apply IH |]. simpl. by rewrite IH.
  - simpl. rewrite Hc. apply IH.
Qed.

Lemma collapse_truthy (s : string) :
  truthy s = true → truthy (collapse false s) = true.
Proof.
  destruct s as [| c s]; [done |]. simpl. by destruct (is_whitespace c).
Qed.

(** The line that shows the data source above the prompt box is at most 80
    characters long and its only white space is single spaces; it is empty
    for no source but the empty one; and whenever it is not the whole
    collapsed source, the ellipsis follows it. *)
Theorem dataSourceLine_shape (source : string) :
  let (text, more) := dataSourceLine source in
  (String.length text ≤ 80)%nat
  ∧ singleSpaced false text = true
  ∧ (text = "" ↔ source = "")
  ∧ (text ≠ collapseWhitespace source → more = true).
Proof.
  unfold dataSourceLine, collapseWhitespace. repeat split.
  - apply substring_length_le.
  - apply singleSpaced_substring, singleSpaced_collapse.
  - destruct source as [| c s]; [done |]. simpl.
    by destruct (is_whitespace c).
  - by intros ->.
  - intros Hcut. apply Nat.ltb_lt.
    destruct (decide (String.length source ≤ 80)%nat) as [Hshort |]; [| lia].
    destruct Hcut. apply substring_all.
    pose proof (collapse_length false source). lia.
Qed.

(** The data source test goes out only for a data source kind other than
    none and a non-empty source, with exactly these two in its body; when it
    has ended, however it ended, the testing flag is down, and a schema and
    an error message are never both left behind. *)
Theorem handleTestDataSource_outcome (cfg cfg1 : Settings) (t t1 : TestStatus)
    (request : TestRequest) (r : TestResponse) :
  handleTestDataSource_send cfg t = Some (cfg1, t1, request) →
  let '(cfg2, t2, thrown) := handleTestDataSource_receive r cfg1 t1 in
  dataSourceType cfg ≠ DsNone
  ∧ dataSource cfg ≠ ""
  ∧ test_data_source_type request = dataSourceType cfg
  ∧ test_data_source request = dataSource cfg
  ∧ isTestingDataSource t1 = true
  ∧ isTestingDataSource t2 = false
  ∧ (is_Some (dataSourceSchema cfg2) → dataSourceTestError t2 = None)
  ∧ (is_Some thrown → r = TestRejected ThrownNull ∨ r = TestRejected ThrownUndefined).
Proof.
  unfold handleTestDataSource_send. intros Hsend.
  assert (Hsrc : dataSource cfg ≠ "" ∧ dataSourceType cfg ≠ DsNone
                 ∧ cfg1 = setSchema None cfg
                 ∧ t1 = {| isTestingDataSource := true; dataSourceTestError := None |}
                 ∧ request = {| test_data_source_type := dataSourceType cfg;
                                test_data_source := dataSource cfg |}).
  { destruct (dataSourceType cfg); [done | |];
      (destruct (dataSource cfg) as [| c s]; [done |]);
      simpl in Hsend; by simplify_eq. }
  destruct Hsrc as (Hsrc & Hkind & -> & -> & ->). clear Hsend.
  unfold handleTestDataSource_receive.
  destruct r as [e | [|] data]; simpl.
  - destruct (message_or_string e) as [thrown | msg] eqn:Hmsg; simpl;
      repeat split; try done; try by intros [? ?].
    intros _. by destruct e as [err | str | |]; auto.
  - repeat split; try done; by intros [? ?].
  - repeat split; try done; by intros [? ?].
Qed.

Lemma handleTestDataSource_outcome_example :
  let '(cfg2, t2, thrown) :=
    handleTestDataSource_receive
      (TestAnswered false {| test_schema := None; test_detail := None |})
      (setSchema None StudioSamples.sqlSettings)
      {| isTestingDataSource := true; dataSourceTestError := None |} in
  dataSourceType StudioSamples.sqlSettings ≠ DsNone
  ∧ dataSource StudioSamples.sqlSettings ≠ ""
  ∧ test_data_source_type {| test_data_source_type := DsSql;
                             test_data_source := "select 1" |}
    = dataSourceType StudioSamples.sqlSettings
  ∧ test_data_source {| test_data_source_type := DsSql;
                        test_data_source := "select 1" |}
    = dataSource StudioSamples.sqlSettings
  ∧ isTestingDataSource {| isTestingDataSource := true; dataSourceTestError := None |}
    = true
  ∧ isTestingDataSource t2 = false
  ∧ (is_Some (dataSourceSchema cfg2) → dataSourceTestError t2 = None)
  ∧ (is_Some thrown
     → TestAnswered false {| test_schema := None; test_detail := None |}
       = TestRejected ThrownNull
       ∨ TestAnswered false {| test_schema := None; test_detail := None |}
         = TestRejected ThrownUndefined).
Proof.
  apply (handleTestDataSource_outcome StudioSamples.sqlSettings _
           StudioSamples.failedBefore _ _
           (TestAnswered false {| test_schema := None; test_detail := None |})).
  reflexivity.
Defined.

End DataSource.

(** ** The dashboard store *)

Section TrimFacts.
Import Js.

Lemma trimEnd_idem (s : string) : trimEnd (trimEnd s) = trimEnd s.
Proof.
  induction s as [| c s IH]; simpl; [done |].
  destruct (trimEnd s) as [| d kept] eqn:Hkept.
  - destruct (is_whitespace c) eqn:Hc; simpl; [done |]. by rewrite Hc.
  - simpl in *. by rewrite IH.
Qed.

Lemma trimStart_fixed (c : ascii) (s : string) :
  is_whitespace c = false → trimStart (String c s) = String c s.
Proof. intros Hc. simpl. by rewrite Hc. Qed.

Lemma trimStart_head (s : string) :
  trimStart s = "" ∨ ∃ c rest, trimStart s = String c rest ∧ is_whitespace c = false.
Proof.
  induction s as [| c s IH]; simpl; [by left |].
  destruct (is_whitespace c) eqn:Hc; [done |]. right. by exists c, s.
Qed.

Lemma trimEnd_head (c : ascii) (s : string) :
  is_whitespace c = false → ∃ rest, trimEnd (String c s) = String c rest.
Proof.
  intros Hc. simpl. destruct (trimEnd s); rewrite ?Hc; by eexists.
Qed.

Lemma trim_idem (s : string) : trim (trim s) = trim s.
Proof.
  unfold trim. destruct (trimStart_head s) as [-> | (c & rest & -> & Hc)]; [done |].
  destruct (trimEnd_head c rest Hc) as [kept Hkept].
  rewrite Hkept, (trimStart_fixed c kept Hc), <- Hkept. apply trimEnd_idem.
Qed.

End TrimFacts.

Section StoreFacts.
Import DashboardStore.

Variable uuidv4 : nat → string.
Variable reg : WidgetRegistry.Registry.

Lemma withWidgets_same (tab : Tab) : withWidgets (widgets tab) tab = tab.
Proof. by destruct tab. Qed.

Lemma addWidgetTo_others (tabId kind : string) (position : option Position)
    (n : nat) (ts : list Tab) :
  Forall (fun tab => id tab ≠ tabId) ts →
  addWidgetTo uuidv4 reg tabId kind position n ts = (ts, n).
Proof.
  induction 1 as [| tab ts Hne _ IH]; simpl; [done |].
  apply String.eqb_neq in Hne. by rewrite Hne, IH.
Qed.

Lemma removeWidget_others (tabId widgetId : string) (ts : list Tab) :
  Forall (fun tab => id tab ≠ tabId) ts →
  (fun tab => if negb (String.eqb (id tab) tabId) then tab
              else withWidgets (filter (fun wl => i wl ≠ widgetId) (widgets tab)) tab)
    <$> ts = ts.
Proof.
  induction 1 as [| tab ts Hne _ IH]; csimpl; [done |].
  apply String.eqb_neq in Hne. by rewrite Hne, IH.
Qed.

Lemma filter_fresh (u : string) (added : WidgetLayout) (ws : list WidgetLayout) :
  i added = u →
  Forall (fun wl => i wl ≠ u) ws →
  filter (fun wl => i wl ≠ u) (ws ++ [added]) = ws.
Proof.
  intros Hu Hws. rewrite filter_app, filter_cons_False, filter_nil, app_nil_r.
  - induction Hws as [| wl ws Hwl _ IH]; [done |].
    by rewrite filter_cons_True, IH.
  - by intros [].
Qed.

Lemma remove_added_list (tabId kind : string) (position : option Position)
    (n : nat) (ts : list Tab) :
  NoDup (id <$> ts) →
  (∀ tab wl, tab ∈ ts → id tab = tabId → wl ∈ widgets tab → i wl ≠ uuidv4 n) →
  (fun tab => if negb (String.eqb (id tab) tabId) then tab
              else withWidgets (filter (fun wl => i wl ≠ uuidv4 n) (widgets tab)) tab)
    <$> (addWidgetTo uuidv4 reg tabId kind position n ts).1 = ts.
Proof.
  induction ts as [| tab ts IH]; intros Hnd Hfresh; [done |].
  rewrite fmap_cons in Hnd. apply NoDup_cons in Hnd as [Hhead Hnd]. simpl.
  destruct (String.eqb (id tab) tabId) eqn:Hid; simpl.
  - apply String.eqb_eq in Hid.
    assert (Hrest : Forall (fun t => id t ≠ tabId) ts).
    { apply Forall_forall. intros t Ht Heq. apply Hhead.
      rewrite Hid, <- Heq. by apply list_elem_of_fmap_2. }
    rewrite (addWidgetTo_others _ _ _ _ _ Hrest). csimpl.
    apply String.eqb_eq in Hid as Hid'. rewrite Hid'. simpl.
    rewrite (removeWidget_others _ _ _ Hrest). f_equal.
    rewrite filter_fresh; [by destruct tab | done |].
    apply Forall_forall. intros wl Hwl.
    apply (Hfresh tab wl); [by left | done | done].
  - destruct (addWidgetTo uuidv4 reg tabId kind position n ts) as [rest' n'] eqn:Hrest.
    csimpl. rewrite Hid. simpl. f_equal. apply IH; [done |].
    intros t wl Ht. apply Hfresh. by right.
Qed.

(** Removing the widget that [addWidget] has just added restores the tabs,
    when tab ids are unique and the new widget id is not already used in the
    tab. *)
Theorem remove_added_widget (tabId kind : string) (position : option Position)
    (st : Store) :
  NoDup (id <$> tabs st) →
  (∀ tab wl, tab ∈ tabs st → id tab = tabId → wl ∈ widgets tab →
             i wl ≠ uuidv4 (uuidCalls st)) →
  let added := addWidget uuidv4 reg tabId kind position st in
  tabs (removeWidget tabId (uuidv4 (uuidCalls st)) added) = tabs st
  ∧ activeTabId (removeWidget tabId (uuidv4 (uuidCalls st)) added) = activeTabId st.
Proof.
  intros Hnd Hfresh. unfold addWidget, removeWidget.
  pose proof (remove_added_list tabId kind position (uuidCalls st) (tabs st)
                Hnd Hfresh) as Hlist.
  destruct (addWidgetTo uuidv4 reg tabId kind position (uuidCalls st) (tabs st))
    as [newTabs n]. simpl in *. by rewrite Hlist.
Qed.

(** Closing a tab keeps the active tab among the tabs: when the active tab
    was one of the tabs and a tab is left, the active tab is one of the tabs
    that are left. *)
Theorem removeTab_keeps_active (k : string) (st : Store) :
  activeTabId st ∈ id <$> tabs st →
  tabs (removeTab k st) ≠ [] →
  activeTabId (removeTab k st) ∈ id <$> tabs (removeTab k st).
Proof.
  unfold removeTab. intros Hactive Hleft.
  destruct (filter (fun t => id t ≠ k) (tabs st)) as [| first rest] eqn:Hnew;
    [done |].
  destruct (String.eqb (activeTabId st) k) eqn:Hk; simpl.
  - left.
  - apply String.eqb_neq in Hk.
    apply list_elem_of_fmap in Hactive as (tab & Hid & Htab).
    change (activeTabId st ∈ id <$> first :: rest).
    rewrite <- Hnew, Hid. apply list_elem_of_fmap_2.
    apply list_elem_of_filter. split; [congruence | done].
Qed.

(** [renameTab] cannot store a name that is empty or has white space at
    either end: names that are tidy stay so, whatever the new name is; and
    the tabs keep their ids, widgets and order. *)
Theorem renameTab_tidy (k newName : string) (st : Store) :
  Forall (fun tab => tidy (name tab)) (tabs st) →
  Forall (fun tab => tidy (name tab)) (tabs (renameTab k newName st))
  ∧ id <$> tabs (renameTab k newName st) = id <$> tabs st
  ∧ widgets <$> tabs (renameTab k newName st) = widgets <$> tabs st.
Proof.
  intros Htidy. unfold renameTab.
  destruct (Js.truthy (Js.trim newName)) eqn:Hname; simpl; [| done].
  split; [| split].
  - apply Forall_fmap. eapply Forall_impl; [exact Htidy |].
    intros tab Htab. simpl. destruct (String.eqb (id tab) k); [| done].
    simpl. split; [| apply trim_idem].
    intros Hempty. by rewrite Hempty in Hname.
  - rewrite <- list_fmap_compose. apply list_fmap_ext.
    intros ? tab _. simpl. by destruct (String.eqb (id tab) k).
  - rewrite <- list_fmap_compose. apply list_fmap_ext.
    intros ? tab _. simpl. by destruct (String.eqb (id tab) k).
Qed.

(** Dropping a tab on another one moves it and nothing else: the tabs are
    the same tabs, the dragged one sits at the target position (the last
    position when the target is past the end), and the others keep their
    order. *)
Theorem reorderTabs_moves (fromIndex toIndex : nat) (ts : list Tab) :
  (fromIndex < length ts)%nat →
  ∃ moved,
    reorderTabs fromIndex toIndex ts = Some <$> moved
    ∧ moved ≡ₚ ts
    ∧ moved !! (toIndex `min` (length ts - 1)) = ts !! fromIndex
    ∧ delete (toIndex `min` (length ts - 1)) moved = delete fromIndex ts.
Proof.
  intros Hfrom. destruct (lookup_lt_is_Some_2 ts fromIndex Hfrom) as [tab Htab].
  unfold reorderTabs, JsArray.spliceOut, JsArray.spliceIn.
  rewrite list_lookup_fmap, Htab. csimpl.
  rewrite <- fmap_take, <- fmap_drop, <- fmap_app, <- delete_take_drop.
  exists (take toIndex (delete fromIndex ts) ++ tab :: drop toIndex (delete fromIndex ts)).
  assert (Hlen : length (take toIndex (delete fromIndex ts))
                 = toIndex `min` (length ts - 1)).
  { rewrite length_take, length_delete by done. done. }
  repeat split.
  - by rewrite fmap_app, fmap_cons, fmap_take, fmap_drop.
  - rewrite <- Permutation_middle, take_drop.
    by rewrite delete_take_drop, Permutation_middle, take_drop_middle.
  - by apply list_lookup_middle.
  - rewrite <- Hlen, delete_middle. apply take_drop.
Qed.

Lemma findWidget_Some (k : string) (ws : list WidgetLayout) (e : WidgetLayout) :
  findWidget k ws = Some e → e ∈ ws ∧ i e = k.
Proof.
  unfold findWidget. destruct (list_find _ ws) as [[n found] |] eqn:Hfind; [| done].
  simpl. intros [= <-]. apply list_find_Some in Hfind as (Hn & Hk & _).
  split; [by eapply list_elem_of_lookup_2 | done].
Qed.

Lemma findWidget_is_Some (k : string) (ws : list WidgetLayout) :
  is_Some (findWidget k ws) ↔ k ∈ i <$> ws.
Proof.
  unfold findWidget. split.
  - intros [e He]. destruct (list_find _ ws) as [[n found] |] eqn:Hfind; [| done].
    apply list_find_Some in Hfind as (Hn & Hk & _).
    apply list_elem_of_fmap. exists found.
    split; [done | by eapply list_elem_of_lookup_2].
  - intros Hk. apply list_elem_of_fmap in Hk as (e & -> & He).
    destruct (list_find_elem_of (fun wl => i wl = i e) ws e He eq_refl)
      as [[n found] ->]. by eexists.
Qed.

Lemma updatedWidgets_ids (newLayout : list LayoutItem) (ws : list WidgetLayout) :
  i <$> updatedWidgets newLayout ws
  = filter (fun k => k ∈ i <$> ws) (l_i <$> newLayout).
Proof.
  unfold updatedWidgets. induction newLayout as [| l rest IH]; [done |].
  csimpl. destruct (findWidget (l_i l) ws) as [e |] eqn:Hfind.
  - rewrite filter_cons_True by (apply findWidget_is_Some; by eexists).
    csimpl. by rewrite IH.
  - rewrite filter_cons_False; [done |].
    intros Hk. apply findWidget_is_Some in Hk as [e He]. congruence.
Qed.

Lemma updatedWidgets_existing (newLayout : list LayoutItem) (ws : list WidgetLayout) :
  Forall (fun l => l_type l = None ∧ l_props l = None) newLayout →
  Forall (fun wl => ∃ e, e ∈ ws ∧ i e = i wl ∧ type e = type wl ∧ props e = props wl)
    (updatedWidgets newLayout ws).
Proof.
  intros Hplain. apply Forall_forall. intros wl Hwl.
  apply list_elem_of_omap in Hwl as (l & Hl & Hmerge).
  rewrite Forall_forall in Hplain. destruct (Hplain l Hl) as [Htype Hprops].
  destruct (findWidget (l_i l) ws) as [e |] eqn:Hfind; [| done].
  injection Hmerge as <-. apply findWidget_Some in Hfind as [He Hid].
  exists e. unfold merge. simpl. by rewrite Htype, Hprops.
Qed.

(** A layout change never adds a widget and never changes what a widget
    is: whatever layout the grid reports, as long as its items carry only
    positions and sizes, every widget of every tab afterwards has the id,
    type and props of a widget the tab had before; in the tab that is
    updated, the widgets are those the layout names, in the layout's order,
    so a widget the layout leaves out is dropped. *)
Theorem updateLayout_keeps_widgets (tabId : string) (newLayout : list LayoutItem)
    (st : Store) (n : nat) (tab : Tab) :
  Forall (fun l => l_type l = None ∧ l_props l = None) newLayout →
  tabs st !! n = Some tab →
  ∃ tab', tabs (updateLayout tabId newLayout st) !! n = Some tab'
    ∧ id tab' = id tab
    ∧ name tab' = name tab
    ∧ Forall (fun wl => ∃ e, e ∈ widgets tab ∧ i e = i wl
                             ∧ type e = type wl ∧ props e = props wl)
        (widgets tab')
    ∧ (id tab = tabId →
       i <$> widgets tab'
       = filter (fun k => k ∈ i <$> widgets tab) (l_i <$> newLayout))
    ∧ (id tab ≠ tabId → tab' = tab).
Proof.
  intros Hplain Htab. unfold updateLayout. simpl.
  rewrite list_lookup_fmap, Htab. simpl. eexists. split; [done |].
  destruct (String.eqb_spec (id tab) tabId) as [Hid | Hid]; simpl.
  - repeat split; [by apply updatedWidgets_existing | | done].
    intros _. apply updatedWidgets_ids.
  - repeat split; [| done].
    apply Forall_forall. intros wl Hwl. by exists wl.
Qed.

End StoreFacts.

Section StoreExamples.
Import DashboardStore.

Lemma remove_added_widget_example :
  let added := addWidget StoreSamples.uuidv4 WidgetRegistry.widgetRegistry
                 "default-1" "gantt" None StoreSamples.store in
  tabs (removeWidget "default-1" (StoreSamples.uuidv4 0) added)
  = tabs StoreSamples.store
  ∧ activeTabId (removeWidget "default-1" (StoreSamples.uuidv4 0) added)
    = activeTabId StoreSamples.store.
Proof.
  apply (remove_added_widget StoreSamples.uuidv4 WidgetRegistry.widgetRegistry
           "default-1" "gantt" None StoreSamples.store).
  - refine (bool_decide_unpack _ _). vm_compute. exact I.
  - intros tab wl Htab Hid Hwl.
    repeat (apply elem_of_cons in Htab as [-> | Htab]);
      [| discriminate Hid | discriminate Hid | by apply elem_of_nil in Htab].
    repeat (apply elem_of_cons in Hwl as [-> | Hwl]);
      [discriminate | discriminate | by apply elem_of_nil in Hwl].
Defined.

Lemma removeTab_keeps_active_example :
  activeTabId (removeTab "tab-2" StoreSamples.store)
  ∈ id <$> tabs (removeTab "tab-2" StoreSamples.store).
Proof.
  apply (removeTab_keeps_active "tab-2" StoreSamples.store).
  - refine (bool_decide_unpack _ _). vm_compute. exact I.
  - discriminate.
Defined.

Lemma renameTab_tidy_example :
  Forall (fun tab => tidy (name tab))
    (tabs (renameTab "tab-3" "  Planning 2027 " StoreSamples.store))
  ∧ id <$> tabs (renameTab "tab-3" "  Planning 2027 " StoreSamples.store)
    = id <$> tabs StoreSamples.store
  ∧ widgets <$> tabs (renameTab "tab-3" "  Planning 2027 " StoreSamples.store)
    = widgets <$> tabs StoreSamples.store.
Proof.
  apply (renameTab_tidy "tab-3" "  Planning 2027 " StoreSamples.store).
  repeat constructor; done.
Defined.

Lemma reorderTabs_moves_example :
  ∃ moved,
    reorderTabs 0 2 (tabs StoreSamples.store) = Some <$> moved
    ∧ moved ≡ₚ tabs StoreSamples.store
    ∧ moved !! (2 `min` (length (tabs StoreSamples.store) - 1))
      = tabs StoreSamples.store !! 0
    ∧ delete (2 `min` (length (tabs StoreSamples.store) - 1)) moved
      = delete 0 (tabs StoreSamples.store).
Proof.
  apply (reorderTabs_moves 0 2 (tabs StoreSamples.store)). simpl. lia.
Defined.

Lemma updateLayout_keeps_widgets_example :
  ∃ tab', tabs (updateLayout "default-1" StoreSamples.dragged StoreSamples.store) !! 0
          = Some tab'
    ∧ id tab' = id StoreSamples.overview
    ∧ name tab' = name StoreSamples.overview
    ∧ Forall (fun wl => ∃ e, e ∈ widgets StoreSamples.overview ∧ i e = i wl
                             ∧ type e = type wl ∧ props e = props wl)
        (widgets tab')
    ∧ (id StoreSamples.overview = "default-1" →
       i <$> widgets tab'
       = filter (fun k => k ∈ i <$> widgets StoreSamples.overview)
           (l_i <$> StoreSamples.dragged))
    ∧ (id StoreSamples.overview ≠ "default-1" → tab' = StoreSamples.overview).
Proof.
  apply (updateLayout_keeps_widgets "default-1" StoreSamples.dragged
           StoreSamples.store 0 StoreSamples.overview).
  - repeat constructor.
  - reflexivity.
Defined.

End StoreExamples.
